(** * The external-integration manager of the CRM (src/utils/integrationManager.ts)

    A shallow embedding of the [RateLimiter] and [IntegrationManager] classes,
    followed by the properties the specification states about them.

    Conventions of the embedding.
    - A JavaScript number that holds an integer (epoch milliseconds, an HTTP
      status, an array length) is a [Z]; the configured rate limits are
      request counts and are natural numbers ([N]); the two computed ratios
      of [getMetrics] are IEEE 754 doubles ([float]).
    - An ISO-8601 timestamp string is represented by the instant it denotes,
      in epoch milliseconds: [new Date().toISOString()] and
      [new Date(s).getTime()] are inverse to each other on such strings.
    - A [Map<string, V>] is an insertion-ordered association list ([JsMap]).
    - Every method of the manager is a computation [M A] over the state of
      the process: it ends by returning a value or by throwing, and keeps in
      both cases the mutations done so far.  [await] on the manager's own
      methods is sequential composition.
    - A thrown value is an [Error] object, as the casts [(error as Error)]
      of the source take it to be.
    - What the process reads from outside (the clock, [Math.random], the
      network, the provider adapters) is given by an environment [Env]; a
      webhook handler is the function from its payload to how it ends; the
      calls that go outside are recorded in the [io] trace of the state.
    - [getEvents] and [setupCommonIntegrations] take no part in the
      properties below and are left out. *)

From Stdlib Require Import String DecimalString.
From Stdlib Require Import ZArith NArith List Bool Lia Floats Sorted.
From Stdlib Require Import Ascii Permutation.
From Stdlib Require HexadecimalString.
Import ListNotations.

Set Warnings "-register-all".

Local Open Scope string_scope.
Local Open Scope list_scope.
Local Open Scope Z_scope.

(* ================================================================== *)
(** ** JavaScript values and objects *)
(* ================================================================== *)

(** Values of type [any] that the manager stores or forwards. *)
Inductive JsValue : Type :=
| JsUndefined
| JsNull
| JsBool (b : bool)
| JsNumber (n : Z)
| JsString (s : string)
| JsObject (fields : list (string * JsValue)).

(** [if (v)] on a value. *)
Definition truthy (v : JsValue) : bool :=
  match v with
  | JsUndefined | JsNull => false
  | JsBool b => b
  | JsNumber n => negb (n =? 0)%Z
  | JsString s => negb (s =? "")%string
  | JsObject _ => true
  end.

(** The decimal rendering of an integer inside a template literal. *)
Definition decimal (n : Z) : string := NilZero.string_of_int (Z.to_int n).

(** A thrown [Error] object; only its [message] is ever read. *)
Record JsError := Error { message : string }.

(** How a call ends. *)
Inductive Completion (A : Type) : Type :=
| Returned (a : A)
| Threw (e : JsError).
Arguments Returned {A} a.
Arguments Threw {A} e.

(** Insertion-ordered [Map<string, V>] (also plain objects used as
    dictionaries): [set] on a present key keeps its position. *)
Module JsMap.
Section Defs.
Context {V : Type}.

Definition t := list (string * V).

Definition empty : t := [].

Fixpoint get (k : string) (m : t) : option V :=
  match m with
  | [] => None
  | (k', v) :: m' => if (k' =? k)%string then Some v else get k m'
  end.

Fixpoint set (k : string) (v : V) (m : t) : t :=
  match m with
  | [] => [(k, v)]
  | (k', v') :: m' => if (k' =? k)%string then (k, v) :: m' else (k', v') :: set k v m'
  end.

Definition values (m : t) : list V := map snd m.

(** Object spread [{...a, ...b}]. *)
Definition spread (a b : t) : t := fold_left (fun acc kv => set (fst kv) (snd kv) acc) b a.

End Defs.
Arguments t : clear implicits.
End JsMap.

(** [Array.prototype.slice(-n)]: the last [n] elements. *)
Definition slice_last {A : Type} (n : nat) (l : list A) : list A :=
  skipn (length l - n) l.

(** A safe integer as a double. *)
Definition js_number (n : Z) : float :=
  if n <? 0 then PrimFloat.opp (PrimFloat.of_uint63 (Uint63.of_Z (- n)))
  else PrimFloat.of_uint63 (Uint63.of_Z n).

(* ================================================================== *)
(** ** Rate limiter *)
(* ================================================================== *)

(** [settings.rateLimits]: request counts per window. *)
Record RateLimits := {
  requestsPerSecond : N;
  requestsPerHour : N;
  requestsPerDay : N
}.

Module RateLimiter.

Record t := {
  requests : list Z;
  limits : RateLimits
}.

(** [new RateLimiter(limits)] *)
Definition new (l : RateLimits) : t := {| requests := []; limits := l |}.

(** [canMakeRequest()], with [now] the value that [Date.now()] returned.
    The result pairs the returned boolean with the limiter after the call. *)
Definition canMakeRequest (now : Z) (rl : t) : bool * t :=
  let secondAgo := now - 1000 in
  let hourAgo := now - 3600000 in
  let dayAgo := now - 86400000 in
  (* Clean old requests *)
  let requests' := filter (fun time => time >? dayAgo) (requests rl) in
  let requestsLastSecond := length (filter (fun time => time >? secondAgo) requests') in
  let requestsLastHour := length (filter (fun time => time >? hourAgo) requests') in
  let requestsLastDay := length requests' in
  if (requestsPerSecond (limits rl) <=? N.of_nat requestsLastSecond)%N
     || (requestsPerHour (limits rl) <=? N.of_nat requestsLastHour)%N
     || (requestsPerDay (limits rl) <=? N.of_nat requestsLastDay)%N
  then (false, {| requests := requests'; limits := limits rl |})
  else (true, {| requests := requests' ++ [now]; limits := limits rl |}).

(** A run of [canMakeRequest] calls, one per reading of the clock in [times];
    each call is listed with what it returned. *)
Fixpoint calls (times : list Z) (rl : t) : list (Z * bool) * t :=
  match times with
  | [] => ([], rl)
  | now :: times' =>
      let (r, rl') := canMakeRequest now rl in
      let (rs, rl'') := calls times' rl' in
      ((now, r) :: rs, rl'')
  end.

(** The timestamps of the calls that returned [true]. *)
Definition admitted (rs : list (Z * bool)) : list Z :=
  map fst (filter snd rs).

(** The trailing window of [width] milliseconds that ends at [T]: the
    instants [t] with [T - width < t <= T]. *)
Definition inWindow (width T t : Z) : bool := (T - width <? t) && (t <=? T).

Definition countInWindow (width T : Z) (l : list Z) : N :=
  N.of_nat (length (filter (inWindow width T) l)).

(** What a check at [now] counts for the window of [width] milliseconds. *)
Definition countSince (width now : Z) (l : list Z) : nat :=
  length (filter (fun time => time >? now - width) l).

(** The length of the longest window, and the three windows of a limiter
    with their limits. *)
Definition DAY : Z := 86400000.

Definition windows (l : RateLimits) : list (Z * N) :=
  [(1000, requestsPerSecond l); (3600000, requestsPerHour l); (DAY, requestsPerDay l)].

(** The invariant of a run: [adm] are the timestamps admitted so far, none
    later than [hi]; the log agrees with [adm] on every instant that a later
    check can still count; no window over [adm] exceeds its limit. *)
Record Inv (rl : t) (adm : list Z) (hi : Z) : Prop := {
  inv_past : Forall (fun time => time <= hi) adm;
  inv_log : forall c, hi - DAY <= c ->
            filter (fun time => time >? c) (requests rl) = filter (fun time => time >? c) adm;
  inv_bound : forall width limit T, In (width, limit) (windows (limits rl)) ->
              (countInWindow width T adm <= limit)%N
}.

End RateLimiter.

(* ================================================================== *)
(** ** Data model of the manager *)
(* ================================================================== *)

Module Category.
Variant t := email | sms | calendar | storage | crm | payment | analytics | communication.
Definition toString (c : t) : string :=
  match c with
  | email => "email" | sms => "sms" | calendar => "calendar" | storage => "storage"
  | crm => "crm" | payment => "payment" | analytics => "analytics"
  | communication => "communication"
  end.
End Category.

(** [IntegrationConfig['status']] *)
Module Status.
Variant t := active | inactive | error | pending.
End Status.

Module Credentials.
Record t := {
  apiKey : option string;
  apiSecret : option string;
  accessToken : option string;
  refreshToken : option string;
  clientId : option string;
  clientSecret : option string;
  webhook : option string
}.
Definition none : t :=
  {| apiKey := None; apiSecret := None; accessToken := None; refreshToken := None;
     clientId := None; clientSecret := None; webhook := None |}.
End Credentials.

Module Settings.
Record t := {
  syncEnabled : bool;
  syncInterval : Z;
  lastSync : option Z;
  webhookUrl : option string;
  rateLimits : option RateLimits
}.
(** [{ ...settings, lastSync: when }] *)
Definition withLastSync (s : t) (when : Z) : t :=
  {| syncEnabled := syncEnabled s; syncInterval := syncInterval s;
     lastSync := Some when; webhookUrl := webhookUrl s; rateLimits := rateLimits s |}.
End Settings.

Module Endpoints.
Record t := {
  base : string;
  auth : option string;
  webhook : option string;
  others : JsMap.t string
}.
End Endpoints.

Module IntegrationConfig.
Record t := {
  id : string;
  name : string;
  category : Category.t;
  provider : string;
  status : Status.t;
  credentials : Credentials.t;
  settings : Settings.t;
  endpoints : Endpoints.t;
  createdAt : Z;
  updatedAt : Z
}.

(** [{ ...config, createdAt: c, updatedAt: u }] *)
Definition stamped (config : t) (c u : Z) : t :=
  {| id := id config; name := name config; category := category config;
     provider := provider config; status := status config;
     credentials := credentials config; settings := settings config;
     endpoints := endpoints config; createdAt := c; updatedAt := u |}.
End IntegrationConfig.

(** [Partial<IntegrationConfig>]: a field is [None] when the object lacks it. *)
Module PartialConfig.
Record t := {
  id : option string;
  name : option string;
  category : option Category.t;
  provider : option string;
  status : option Status.t;
  credentials : option Credentials.t;
  settings : option Settings.t;
  endpoints : option Endpoints.t;
  createdAt : option Z;
  updatedAt : option Z
}.
Definition empty : t :=
  {| id := None; name := None; category := None; provider := None; status := None;
     credentials := None; settings := None; endpoints := None;
     createdAt := None; updatedAt := None |}.
(** [{ status: s }] *)
Definition ofStatus (s : Status.t) : t :=
  {| id := None; name := None; category := None; provider := None; status := Some s;
     credentials := None; settings := None; endpoints := None;
     createdAt := None; updatedAt := None |}.
(** [{ settings: s }] *)
Definition ofSettings (s : Settings.t) : t :=
  {| id := None; name := None; category := None; provider := None; status := None;
     credentials := None; settings := Some s; endpoints := None;
     createdAt := None; updatedAt := None |}.

Definition pick {A : Type} (new : option A) (old : A) : A :=
  match new with Some a => a | None => old end.

(** [{ ...integration, ...updates, updatedAt: now }] *)
Definition merge (integration : IntegrationConfig.t) (updates : t) (now : Z)
  : IntegrationConfig.t :=
  {| IntegrationConfig.id := pick (id updates) (IntegrationConfig.id integration);
     IntegrationConfig.name := pick (name updates) (IntegrationConfig.name integration);
     IntegrationConfig.category :=
       pick (category updates) (IntegrationConfig.category integration);
     IntegrationConfig.provider :=
       pick (provider updates) (IntegrationConfig.provider integration);
     IntegrationConfig.status := pick (status updates) (IntegrationConfig.status integration);
     IntegrationConfig.credentials :=
       pick (credentials updates) (IntegrationConfig.credentials integration);
     IntegrationConfig.settings :=
       pick (settings updates) (IntegrationConfig.settings integration);
     IntegrationConfig.endpoints :=
       pick (endpoints updates) (IntegrationConfig.endpoints integration);
     IntegrationConfig.createdAt :=
       pick (createdAt updates) (IntegrationConfig.createdAt integration);
     IntegrationConfig.updatedAt := now |}.
End PartialConfig.

(** [IntegrationEvent['type']], ['direction'] and ['status'] *)
Module EventType.
Variant t := sync | webhook | api_call | error | auth_refresh.
Definition eqb (a b : t) : bool :=
  match a, b with
  | sync, sync | webhook, webhook | api_call, api_call
  | error, error | auth_refresh, auth_refresh => true
  | _, _ => false
  end.
End EventType.

Module Direction.
Variant t := inbound | outbound.
End Direction.

Module EventStatus.
Variant t := success | failed | pending.
Definition eqb (a b : t) : bool :=
  match a, b with
  | success, success | failed, failed | pending, pending => true
  | _, _ => false
  end.
End EventStatus.

Module Metadata.
Record t := {
  endpoint : option string;
  httpStatus : option Z;
  responseTime : option Z
}.
End Metadata.

Module IntegrationEvent.
Record t := {
  id : string;
  integrationId : string;
  type : EventType.t;
  direction : Direction.t;
  status : EventStatus.t;
  data : JsValue;
  error : option string;
  timestamp : Z;
  retryCount : Z;
  metadata : option Metadata.t
}.
End IntegrationEvent.

Module WebhookHandler.
Record t := {
  integrationId : string;
  eventTypes : list string;
  handler : JsValue -> Completion unit
}.
End WebhookHandler.

(** The [fetch] API, as far as the manager uses it. *)
Module Request.
Record t := {
  url : string;
  method : string;
  headers : JsMap.t string;
  body : option JsValue
}.
End Request.

Module Response.
Record t := { status : Z }.
(** [response.ok]: the status is in the range 200-299. *)
Definition ok (r : t) : bool := (200 <=? status r) && (status r <=? 299).
End Response.

(** [syncData]'s [direction] argument. *)
Module SyncDirection.
Variant t := pull | push | bidirectional.
Definition toString (d : t) : string :=
  match d with pull => "pull" | push => "push" | bidirectional => "bidirectional" end.
End SyncDirection.

Module Timeframe.
Variant t := hour | day | week.
End Timeframe.

(** The result of [getMetrics]. *)
Module Metrics.
Record t := {
  totalRequests : Z;
  successfulRequests : Z;
  failedRequests : Z;
  averageResponseTime : float;
  errorRate : float
}.
End Metrics.

(** The private fields of [IntegrationManager]. *)
Record IntegrationManager := {
  integrations : JsMap.t IntegrationConfig.t;
  webhookHandlers : JsMap.t (list WebhookHandler.t);
  events : list IntegrationEvent.t;
  rateLimiters : JsMap.t RateLimiter.t
}.

(** [new IntegrationManager()] *)
Definition newIntegrationManager : IntegrationManager :=
  {| integrations := JsMap.empty; webhookHandlers := JsMap.empty;
     events := []; rateLimiters := JsMap.empty |}.

Definition setIntegrations (f : JsMap.t IntegrationConfig.t -> JsMap.t IntegrationConfig.t)
  (m : IntegrationManager) : IntegrationManager :=
  {| integrations := f (integrations m); webhookHandlers := webhookHandlers m;
     events := events m; rateLimiters := rateLimiters m |}.

Definition setWebhookHandlers
  (f : JsMap.t (list WebhookHandler.t) -> JsMap.t (list WebhookHandler.t))
  (m : IntegrationManager) : IntegrationManager :=
  {| integrations := integrations m; webhookHandlers := f (webhookHandlers m);
     events := events m; rateLimiters := rateLimiters m |}.

Definition setEvents (f : list IntegrationEvent.t -> list IntegrationEvent.t)
  (m : IntegrationManager) : IntegrationManager :=
  {| integrations := integrations m; webhookHandlers := webhookHandlers m;
     events := f (events m); rateLimiters := rateLimiters m |}.

Definition setRateLimiters (f : JsMap.t RateLimiter.t -> JsMap.t RateLimiter.t)
  (m : IntegrationManager) : IntegrationManager :=
  {| integrations := integrations m; webhookHandlers := webhookHandlers m;
     events := events m; rateLimiters := f (rateLimiters m) |}.

(* ================================================================== *)
(** ** The process: state, environment and the monad of methods *)
(* ================================================================== *)

(** A call that leaves the manager. *)
Inductive IOEvent : Type :=
| Fetch (r : Request.t)
| HandlerCall (h : WebhookHandler.t) (payload : JsValue)
| ConsoleLog (line : string).

(** The state of the process: the singleton manager, how many times the
    outside has been read, and the calls made to the outside so far. *)
Record State := {
  this : IntegrationManager;
  ticks : nat;
  io : list IOEvent
}.

Definition initialState : State :=
  {| this := newIntegrationManager; ticks := 0; io := [] |}.

(** What the outside answers, by the number of earlier readings. *)
Record Env := {
  clock : nat -> Z;
  random36 : nat -> string;
  network : nat -> Request.t -> Completion Response.t;
  providerPull : nat -> string -> Completion unit;
  providerPush : nat -> string -> Completion unit
}.

Definition M (A : Type) : Type := State -> Completion A * State.

Definition ret {A : Type} (a : A) : M A := fun s => (Returned a, s).

Definition bind {A B : Type} (m : M A) (k : A -> M B) : M B :=
  fun s =>
    match m s with
    | (Returned a, s') => k a s'
    | (Threw e, s') => (Threw e, s')
    end.

(** [throw e] *)
Definition throw {A : Type} (e : JsError) : M A := fun s => (Threw e, s).

(** [try { body } catch (error) { handler }] *)
Definition try_catch {A : Type} (body : M A) (handler : JsError -> M A) : M A :=
  fun s =>
    match body s with
    | (Returned a, s') => (Returned a, s')
    | (Threw e, s') => handler e s'
    end.

Declare Scope js_scope.
Delimit Scope js_scope with js.
Notation "x <- m ;; k" := (bind m (fun x => k))
  (at level 61, m at next level, right associativity) : js_scope.
Notation "m ;; k" := (bind m (fun _ => k))
  (at level 61, right associativity) : js_scope.
Local Open Scope js_scope.

(** Reading and mutating the fields of [this]. *)
Definition read {A : Type} (f : IntegrationManager -> A) : M A :=
  fun s => (Returned (f (this s)), s).

Definition mutate (f : IntegrationManager -> IntegrationManager) : M unit :=
  fun s => (Returned tt, {| this := f (this s); ticks := ticks s; io := io s |}).

(** [for (const x of l) { body }] *)
Fixpoint forEach {A : Type} (l : list A) (body : A -> M unit) : M unit :=
  match l with
  | [] => ret tt
  | x :: l' => body x ;; forEach l' body
  end.

(* ================================================================== *)
(** ** The methods of [IntegrationManager] *)
(* ================================================================== *)

(** Keep only last 10000 events to prevent memory issues. *)
Definition MAX_EVENTS : nat := Z.to_nat 10000.

(** [this.events.push(event)], then the truncation of [logEvent]. *)
Definition pushEvent (event : IntegrationEvent.t) (log : list IntegrationEvent.t)
  : list IntegrationEvent.t :=
  let log' := log ++ [event] in
  if (MAX_EVENTS <? length log')%nat then slice_last MAX_EVENTS log' else log'.

(** A sequence of pushes, oldest first. *)
Definition pushEvents (evs log : list IntegrationEvent.t) : list IntegrationEvent.t :=
  fold_left (fun log' event => pushEvent event log') evs log.

(** An optional string under [if (c)]: an absent or empty string is falsy. *)
Definition truthyString (c : option string) : option string :=
  match c with
  | Some k => if (k =? "")%string then None else Some k
  | None => None
  end.

(** [getAuthHeaders]: a later assignment to ['Authorization'] overwrites an
    earlier one. *)
Definition getAuthHeaders (integration : IntegrationConfig.t) : JsMap.t string :=
  let headers := JsMap.empty in
  let headers :=
    match truthyString (Credentials.apiKey (IntegrationConfig.credentials integration)) with
    | Some k => JsMap.set "Authorization" ("Bearer " ++ k)%string headers
    | None => headers
    end in
  let headers :=
    match truthyString (Credentials.accessToken (IntegrationConfig.credentials integration)) with
    | Some k => JsMap.set "Authorization" ("Bearer " ++ k)%string headers
    | None => headers
    end in
  headers.

(** [`Integration ${id} not found`] *)
Definition notFound (id : string) : JsError :=
  Error ("Integration " ++ id ++ " not found")%string.

Definition rateLimitExceeded : JsError := Error "Rate limit exceeded".

(** The trailing window of [getMetrics]: [setHours(getHours() - 1)],
    [setDate(getDate() - 1)] and [setDate(getDate() - 7)] on the current
    date, in a time zone whose offset does not change over the window. *)
Definition cutoffOf (timeframe : Timeframe.t) (now : Z) : Z :=
  match timeframe with
  | Timeframe.hour => now - 3600000
  | Timeframe.day => now - 86400000
  | Timeframe.week => now - 7 * 86400000
  end.

(** The filter of [getMetrics]. *)
Definition selected (integrationId : string) (cutoff : Z) (e : IntegrationEvent.t) : bool :=
  (IntegrationEvent.integrationId e =? integrationId)%string
  && (IntegrationEvent.timestamp e >? cutoff)
  && EventType.eqb (IntegrationEvent.type e) EventType.api_call.

Definition isSuccess (e : IntegrationEvent.t) : bool :=
  EventStatus.eqb (IntegrationEvent.status e) EventStatus.success.

(** [e.metadata?.responseTime] when it is truthy. *)
Definition truthyResponseTime (e : IntegrationEvent.t) : option Z :=
  match IntegrationEvent.metadata e with
  | Some md =>
      match Metadata.responseTime md with
      | Some rt => if rt =? 0 then None else Some rt
      | None => None
      end
  | None => None
  end.

Definition responseTimesOf (evs : list IntegrationEvent.t) : list Z :=
  flat_map (fun e => match truthyResponseTime e with Some rt => [rt] | None => [] end) evs.

(** The body of [getMetrics] after the cutoff is computed. *)
Definition metricsOf (log : list IntegrationEvent.t) (integrationId : string) (cutoff : Z)
  : Metrics.t :=
  let evs := filter (selected integrationId cutoff) log in
  let totalRequests := Z.of_nat (length evs) in
  let successfulRequests := Z.of_nat (length (filter isSuccess evs)) in
  let failedRequests := totalRequests - successfulRequests in
  let responseTimes := responseTimesOf evs in
  let averageResponseTime :=
    if Z.of_nat (length responseTimes) >? 0
    then PrimFloat.div
           (fold_left (fun sum time => PrimFloat.add sum (js_number time)) responseTimes
              (js_number 0))
           (js_number (Z.of_nat (length responseTimes)))
    else js_number 0 in
  let errorRate :=
    if totalRequests >? 0
    then PrimFloat.mul (PrimFloat.div (js_number failedRequests) (js_number totalRequests))
           (js_number 100)
    else js_number 0 in
  {| Metrics.totalRequests := totalRequests;
     Metrics.successfulRequests := successfulRequests;
     Metrics.failedRequests := failedRequests;
     Metrics.averageResponseTime := averageResponseTime;
     Metrics.errorRate := errorRate |}.

(** The object literal of [logEvent]: [stamp] and [suffix] make the id,
    [timestamp] is the instant of [new Date()]. *)
Definition newEvent (stamp : Z) (suffix : string) (timestamp : Z)
  (integrationId : string) (type : EventType.t) (direction : Direction.t)
  (status : EventStatus.t) (data : JsValue) (error : option string)
  (metadata : option Metadata.t) : IntegrationEvent.t :=
  {| IntegrationEvent.id := ("event_" ++ decimal stamp ++ "_" ++ suffix)%string;
     IntegrationEvent.integrationId := integrationId;
     IntegrationEvent.type := type;
     IntegrationEvent.direction := direction;
     IntegrationEvent.status := status;
     IntegrationEvent.data := data;
     IntegrationEvent.error := error;
     IntegrationEvent.timestamp := timestamp;
     IntegrationEvent.retryCount := 0;
     IntegrationEvent.metadata := metadata |}.

Section Methods.

Variable env : Env.

(** The outside.  Reading it advances [ticks]; a call that leaves the
    manager is appended to [io]. *)
Definition advance (s : State) : State :=
  {| this := this s; ticks := S (ticks s); io := io s |}.

Definition emit (e : IOEvent) (s : State) : State :=
  {| this := this s; ticks := ticks s; io := io s ++ [e] |}.

(** [Date.now()], and [new Date()] read as an instant. *)
Definition Date_now : M Z :=
  fun s => (Returned (clock env (ticks s)), advance s).

(** [Math.random().toString(36).substr(2, 9)] *)
Definition Math_random36 : M string :=
  fun s => (Returned (random36 env (ticks s)), advance s).

(** [await fetch(url, init)] *)
Definition fetch (r : Request.t) : M Response.t :=
  fun s => (network env (ticks s) r, advance (emit (Fetch r) s)).

(** [console.log(line)] *)
Definition console_log (line : string) : M unit :=
  fun s => (Returned tt, emit (ConsoleLog line) s).

(** [await handler.handler(data)] *)
Definition callHandler (h : WebhookHandler.t) (payload : JsValue) : M unit :=
  fun s => (WebhookHandler.handler h payload, advance (emit (HandlerCall h payload) s)).

(** The provider-specific part of a sync step. *)
Definition provider (step : nat -> string -> Completion unit) (integrationId : string)
  : M unit :=
  fun s => (step (ticks s) integrationId, advance s).

(** [logEvent] *)
Definition logEvent (integrationId : string) (type : EventType.t)
  (direction : Direction.t) (status : EventStatus.t) (data : JsValue)
  (error : option string) (metadata : option Metadata.t) : M unit :=
  stamp <- Date_now ;;
  suffix <- Math_random36 ;;
  timestamp <- Date_now ;;
  let event :=
    newEvent stamp suffix timestamp integrationId type direction status data error metadata in
  mutate (setEvents (pushEvent event)).

(** [updateIntegration] *)
Definition updateIntegration (id : string) (updates : PartialConfig.t) : M unit :=
  integration <- read (fun m => JsMap.get id (integrations m)) ;;
  match integration with
  | None => throw (notFound id)
  | Some integration =>
      now <- Date_now ;;
      let updated := PartialConfig.merge integration updates now in
      mutate (setIntegrations (JsMap.set id updated))
  end.

(** [getIntegration] *)
Definition getIntegration (id : string) : M (option IntegrationConfig.t) :=
  read (fun m => JsMap.get id (integrations m)).

(** [rateLimiter.canMakeRequest()] on the limiter held by [this.rateLimiters]
    under [integrationId]: the map holds the object the call mutates. *)
Definition limiterCanMakeRequest (integrationId : string) (rateLimiter : RateLimiter.t)
  : M bool :=
  now <- Date_now ;;
  let (allowed, rateLimiter') := RateLimiter.canMakeRequest now rateLimiter in
  mutate (setRateLimiters (JsMap.set integrationId rateLimiter')) ;;
  ret allowed.

(** [{ method, endpoint, data }] *)
Definition callData (method endpoint : string) (data : JsValue) : JsValue :=
  JsObject [("method", JsString method); ("endpoint", JsString endpoint); ("data", data)].

(** [makeApiCall]; an omitted [data] is [JsUndefined], omitted [headers] are
    [None]. *)
Definition makeApiCall (integrationId method endpoint : string) (data : JsValue)
  (headers : option (JsMap.t string)) : M Response.t :=
  integration <- read (fun m => JsMap.get integrationId (integrations m)) ;;
  match integration with
  | None => throw (notFound integrationId)
  | Some integration =>
      (* Check rate limits *)
      rateLimiter <- read (fun m => JsMap.get integrationId (rateLimiters m)) ;;
      match rateLimiter with
      | Some rateLimiter =>
          allowed <- limiterCanMakeRequest integrationId rateLimiter ;;
          if allowed then ret tt else throw rateLimitExceeded
      | None => ret tt
      end ;;
      startTime <- Date_now ;;
      try_catch
        (let requestHeaders :=
           JsMap.spread
             (JsMap.spread [("Content-Type", "application/json")] (getAuthHeaders integration))
             (match headers with Some h => h | None => JsMap.empty end) in
         response <- fetch {| Request.url := endpoint;
                              Request.method := method;
                              Request.headers := requestHeaders;
                              Request.body := if truthy data then Some data else None |} ;;
         endTime <- Date_now ;;
         let responseTime := endTime - startTime in
         logEvent integrationId EventType.api_call Direction.outbound
           (if Response.ok response then EventStatus.success else EventStatus.failed)
           (callData method endpoint data)
           (if Response.ok response then None
            else Some ("HTTP " ++ decimal (Response.status response))%string)
           (Some {| Metadata.endpoint := Some endpoint;
                    Metadata.httpStatus := Some (Response.status response);
                    Metadata.responseTime := Some responseTime |}) ;;
         ret response)
        (fun error =>
           endTime <- Date_now ;;
           let responseTime := endTime - startTime in
           logEvent integrationId EventType.api_call Direction.outbound EventStatus.failed
             (callData method endpoint data)
             (Some (message error))
             (Some {| Metadata.endpoint := Some endpoint;
                      Metadata.httpStatus := None;
                      Metadata.responseTime := Some responseTime |}) ;;
           throw error)
  end.

(** [testIntegration] *)
Definition testIntegration (id : string) : M bool :=
  integration <- read (fun m => JsMap.get id (integrations m)) ;;
  match integration with
  | None => throw (notFound id)
  | Some integration =>
      try_catch
        (response <- makeApiCall id "GET"
                       (Endpoints.base (IntegrationConfig.endpoints integration) ++ "/health")%string
                       JsUndefined None ;;
         if Response.ok response
         then updateIntegration id (PartialConfig.ofStatus Status.active) ;; ret true
         else updateIntegration id (PartialConfig.ofStatus Status.error) ;; ret false)
        (fun error =>
           updateIntegration id (PartialConfig.ofStatus Status.error) ;;
           logEvent id EventType.error Direction.outbound EventStatus.failed JsNull
             (Some (message error)) None ;;
           ret false)
  end.

(** [registerIntegration]; the two timestamps of the argument are the ones
    the method writes. *)
Definition registerIntegration (config : IntegrationConfig.t) : M string :=
  createdAt <- Date_now ;;
  updatedAt <- Date_now ;;
  let integration := IntegrationConfig.stamped config createdAt updatedAt in
  mutate (setIntegrations (JsMap.set (IntegrationConfig.id integration) integration)) ;;
  (* Initialize rate limiter if limits are defined *)
  match Settings.rateLimits (IntegrationConfig.settings integration) with
  | Some limits =>
      mutate (setRateLimiters
                (JsMap.set (IntegrationConfig.id integration) (RateLimiter.new limits)))
  | None => ret tt
  end ;;
  (* Test connection *)
  testIntegration (IntegrationConfig.id integration) ;;
  ret (IntegrationConfig.id integration).

(** [listIntegrations]; an omitted [category] is [None], and an empty one is
    falsy as well. *)
Definition listIntegrations (category : option string) : M (list IntegrationConfig.t) :=
  read (fun m =>
          let all := JsMap.values (integrations m) in
          match truthyString category with
          | Some c =>
              filter (fun i => (Category.toString (IntegrationConfig.category i) =? c)%string) all
          | None => all
          end).

(** [registerWebhookHandler] *)
Definition registerWebhookHandler (handler : WebhookHandler.t) : M unit :=
  existing <- read (fun m =>
                match JsMap.get (WebhookHandler.integrationId handler) (webhookHandlers m) with
                | Some l => l
                | None => []
                end) ;;
  mutate (setWebhookHandlers
            (JsMap.set (WebhookHandler.integrationId handler) (existing ++ [handler]))).

(** [h.eventTypes.includes(eventType)] *)
Definition handles (eventType : string) (h : WebhookHandler.t) : bool :=
  existsb (fun t => (t =? eventType)%string) (WebhookHandler.eventTypes h).

Definition matchingHandlers (integrationId eventType : string) (m : IntegrationManager)
  : list WebhookHandler.t :=
  let handlers :=
    match JsMap.get integrationId (webhookHandlers m) with Some l => l | None => [] end in
  filter (handles eventType) handlers.

(** [handleWebhook] *)
Definition handleWebhook (integrationId eventType : string) (data : JsValue) : M unit :=
  matching <- read (matchingHandlers integrationId eventType) ;;
  forEach matching (fun handler =>
    try_catch
      (callHandler handler data ;;
       logEvent integrationId EventType.webhook Direction.inbound EventStatus.success
         data None None)
      (fun error =>
         logEvent integrationId EventType.webhook Direction.inbound EventStatus.failed
           data (Some (message error)) None)).

(** [pullData] and [pushData]: the source writes a line to the console and
    leaves the exchange to the provider ("Implementation depends on specific
    integration"); how that part ends is read from the environment. *)
Definition pullData (integrationId : string) : M unit :=
  console_log ("Pulling data from integration " ++ integrationId)%string ;;
  provider (providerPull env) integrationId.

Definition pushData (integrationId : string) : M unit :=
  console_log ("Pushing data to integration " ++ integrationId)%string ;;
  provider (providerPush env) integrationId.

Definition runsPull (direction : SyncDirection.t) : bool :=
  match direction with
  | SyncDirection.pull | SyncDirection.bidirectional => true
  | SyncDirection.push => false
  end.

Definition runsPush (direction : SyncDirection.t) : bool :=
  match direction with
  | SyncDirection.push | SyncDirection.bidirectional => true
  | SyncDirection.pull => false
  end.

(** [{ direction }] *)
Definition syncPayload (direction : SyncDirection.t) : JsValue :=
  JsObject [("direction", JsString (SyncDirection.toString direction))].

(** [syncData] *)
Definition syncData (integrationId : string) (direction : SyncDirection.t) : M unit :=
  integration <- read (fun m => JsMap.get integrationId (integrations m)) ;;
  match integration with
  | None => ret tt
  | Some integration =>
      if negb (Settings.syncEnabled (IntegrationConfig.settings integration)) then ret tt
      else
        try_catch
          ((if runsPull direction then pullData integrationId else ret tt) ;;
           (if runsPush direction then pushData integrationId else ret tt) ;;
           now <- Date_now ;;
           updateIntegration integrationId
             (PartialConfig.ofSettings
                (Settings.withLastSync (IntegrationConfig.settings integration) now)) ;;
           logEvent integrationId EventType.sync Direction.outbound EventStatus.success
             (syncPayload direction) None None)
          (fun error =>
             logEvent integrationId EventType.sync Direction.outbound EventStatus.failed
               (syncPayload direction) (Some (message error)) None)
  end.

(** [getMetrics] *)
Definition getMetrics (integrationId : string) (timeframe : Timeframe.t) : M Metrics.t :=
  now <- Date_now ;;
  read (fun m => metricsOf (events m) integrationId (cutoffOf timeframe now)).

End Methods.

(* ================================================================== *)
(** ** Sequences of appends *)
(* ================================================================== *)

(** The arguments of one call of [logEvent]. *)
Module LogEntry.
Record t := {
  integrationId : string;
  type : EventType.t;
  direction : Direction.t;
  status : EventStatus.t;
  data : JsValue;
  error : option string;
  metadata : option Metadata.t
}.
End LogEntry.

Section Appends.

Variable env : Env.

Definition logEntry (a : LogEntry.t) : M unit :=
  logEvent env (LogEntry.integrationId a) (LogEntry.type a) (LogEntry.direction a)
    (LogEntry.status a) (LogEntry.data a) (LogEntry.error a) (LogEntry.metadata a).

(** One [logEvent] after another. *)
Definition logEvents (entries : list LogEntry.t) : M unit := forEach entries logEntry.

(** The event that [logEvent] builds when it starts after [n] readings of
    the outside. *)
Definition eventAt (n : nat) (a : LogEntry.t) : IntegrationEvent.t :=
  newEvent (clock env n) (random36 env (S n)) (clock env (S (S n)))
    (LogEntry.integrationId a) (LogEntry.type a) (LogEntry.direction a)
    (LogEntry.status a) (LogEntry.data a) (LogEntry.error a) (LogEntry.metadata a).

(** The events of a sequence of [logEvent] calls, oldest first. *)
Fixpoint appended (n : nat) (entries : list LogEntry.t) : list IntegrationEvent.t :=
  match entries with
  | [] => []
  | a :: entries' => eventAt n a :: appended (3 + n) entries'
  end.


(** How the steps of [syncData] end when it starts them after [n] readings:
    a step that runs throws [err] ... *)
Definition stepThrows (n : nat) (integrationId : string) (direction : SyncDirection.t)
  (err : JsError) : Prop :=
  match direction with
  | SyncDirection.pull => providerPull env n integrationId = Threw err
  | SyncDirection.push => providerPush env n integrationId = Threw err
  | SyncDirection.bidirectional =>
      providerPull env n integrationId = Threw err
      \/ (providerPull env n integrationId = Returned tt
          /\ providerPush env (S n) integrationId = Threw err)
  end.

(** ... or every step that runs returns. *)
Definition stepsReturn (n : nat) (integrationId : string) (direction : SyncDirection.t)
  : Prop :=
  match direction with
  | SyncDirection.pull => providerPull env n integrationId = Returned tt
  | SyncDirection.push => providerPush env n integrationId = Returned tt
  | SyncDirection.bidirectional =>
      providerPull env n integrationId = Returned tt
      /\ providerPush env (S n) integrationId = Returned tt
  end.

(** The number of steps that run. *)
Definition stepCount (direction : SyncDirection.t) : nat :=
  match direction with
  | SyncDirection.bidirectional => 2
  | _ => 1
  end.

(** What [syncData] logs. *)
Definition syncEntry (integrationId : string) (direction : SyncDirection.t)
  (outcome : Completion unit) : LogEntry.t :=
  {| LogEntry.integrationId := integrationId;
     LogEntry.type := EventType.sync;
     LogEntry.direction := Direction.outbound;
     LogEntry.status :=
       match outcome with Returned _ => EventStatus.success | Threw _ => EventStatus.failed end;
     LogEntry.data := syncPayload direction;
     LogEntry.error :=
       match outcome with Returned _ => None | Threw e => Some (message e) end;
     LogEntry.metadata := None |}.

(** The [error]-type event of [testIntegration]'s [catch]. *)
Definition testFailureEntry (integrationId : string) (err : JsError) : LogEntry.t :=
  {| LogEntry.integrationId := integrationId;
     LogEntry.type := EventType.error;
     LogEntry.direction := Direction.outbound;
     LogEntry.status := EventStatus.failed;
     LogEntry.data := JsNull;
     LogEntry.error := Some (message err);
     LogEntry.metadata := None |}.


End Appends.

(** The state after [k] more readings of the outside with the log [log]. *)
Definition logged (s : State) (k : nat) (log : list IntegrationEvent.t) : State :=
  {| this := setEvents (fun _ => log) (this s); ticks := k + ticks s; io := io s |}.


(* ================================================================== *)
(** ** Concrete environments and configurations *)
(* ================================================================== *)

Module Scenario.

(** A clock that advances by one millisecond per reading, a network that
    answers every request with [status], providers that succeed. *)
Definition answering (status : Z) : Env :=
  {| clock := fun n => 1700000000000 + Z.of_nat n;
     random36 := fun _ => "k3j9x0q2m";
     network := fun _ _ => Returned {| Response.status := status |};
     providerPull := fun _ _ => Returned tt;
     providerPush := fun _ _ => Returned tt |}.

(** The same with a network that is down. *)
Definition unreachable : Env :=
  {| clock := fun n => 1700000000000 + Z.of_nat n;
     random36 := fun _ => "k3j9x0q2m";
     network := fun _ _ => Threw (Error "Failed to fetch");
     providerPull := fun _ _ => Returned tt;
     providerPush := fun _ _ => Returned tt |}.

(** The same as [answering 200] with a provider whose pull step throws. *)
Definition pullFails : Env :=
  {| clock := fun n => 1700000000000 + Z.of_nat n;
     random36 := fun _ => "k3j9x0q2m";
     network := fun _ _ => Returned {| Response.status := 200 |};
     providerPull := fun _ _ => Threw (Error "pull failed");
     providerPush := fun _ _ => Returned tt |}.

Definition limits_1_5_10 : RateLimits :=
  {| requestsPerSecond := 1; requestsPerHour := 5; requestsPerDay := 10 |}.

Definition config (id : string) (syncEnabled : bool) (rateLimits : option RateLimits)
  : IntegrationConfig.t :=
  {| IntegrationConfig.id := id;
     IntegrationConfig.name := id;
     IntegrationConfig.category := Category.calendar;
     IntegrationConfig.provider := "Example";
     IntegrationConfig.status := Status.inactive;
     IntegrationConfig.credentials := Credentials.none;
     IntegrationConfig.settings :=
       {| Settings.syncEnabled := syncEnabled; Settings.syncInterval := 15;
          Settings.lastSync := None; Settings.webhookUrl := None;
          Settings.rateLimits := rateLimits |};
     IntegrationConfig.endpoints :=
       {| Endpoints.base := "https://api.example.com"; Endpoints.auth := None;
          Endpoints.webhook := None; Endpoints.others := JsMap.empty |};
     IntegrationConfig.createdAt := 0;
     IntegrationConfig.updatedAt := 0 |}.

(** The state after [registerIntegration (config id ...)] on a fresh manager. *)
Definition registered (env : Env) (c : IntegrationConfig.t) : State :=
  snd (registerIntegration env c initialState).

(** Two handlers for ["invoice.paid"]: the first throws, the second succeeds. *)
Definition throwingHandler : WebhookHandler.t :=
  {| WebhookHandler.integrationId := "Z";
     WebhookHandler.eventTypes := ["invoice.paid"];
     WebhookHandler.handler := fun _ => Threw (Error "handler failed") |}.

Definition succeedingHandler : WebhookHandler.t :=
  {| WebhookHandler.integrationId := "Z";
     WebhookHandler.eventTypes := ["invoice.paid"; "invoice.voided"];
     WebhookHandler.handler := fun _ => Returned tt |}.

Definition twoHandlers : State :=
  snd (registerWebhookHandler succeedingHandler
         (snd (registerWebhookHandler throwingHandler initialState))).

End Scenario.

(* ================================================================== *)
(** ** Further methods of [IntegrationManager] and their callers *)
(* ================================================================== *)

(** [Array.prototype.slice(0, end)]: a negative [end] counts from the end
    of the array. *)
Definition slice_to {A : Type} (end_ : Z) (l : list A) : list A :=
  let len := Z.of_nat (length l) in
  let final := if end_ <? 0 then Z.max (len + end_) 0 else Z.min end_ len in
  firstn (Z.to_nat final) l.

(** [events.sort((a, b) => new Date(b.timestamp).getTime() -
    new Date(a.timestamp).getTime())]: the sort of an array is stable, so the
    result is the one of a stable insertion sort; [e] goes before the first
    element that the comparator does not put before it. *)
Fixpoint insertNewestFirst (e : IntegrationEvent.t) (sorted : list IntegrationEvent.t)
  : list IntegrationEvent.t :=
  match sorted with
  | [] => [e]
  | x :: rest =>
      if IntegrationEvent.timestamp x - IntegrationEvent.timestamp e <=? 0
      then e :: x :: rest
      else x :: insertNewestFirst e rest
  end.

Definition sortNewestFirst (l : list IntegrationEvent.t) : list IntegrationEvent.t :=
  fold_right insertNewestFirst [] l.

(** [getEvents]; an omitted [integrationId] is [None], and the default of
    [limit] is 100. *)
Definition getEvents (integrationId : option string) (limit : Z)
  : M (list IntegrationEvent.t) :=
  read (fun m =>
          let events := events m in
          let events :=
            match truthyString integrationId with
            | Some id =>
                filter (fun e => (IntegrationEvent.integrationId e =? id)%string) events
            | None => events
            end in
          slice_to limit (sortNewestFirst events)).

(** The request that [makeApiCall] hands to [fetch], and what it logs for
    an [outcome] that took [responseTime] milliseconds. *)
Definition requestOf (integration : IntegrationConfig.t) (method endpoint : string)
  (data : JsValue) (headers : option (JsMap.t string)) : Request.t :=
  {| Request.url := endpoint;
     Request.method := method;
     Request.headers :=
       JsMap.spread
         (JsMap.spread [("Content-Type", "application/json")] (getAuthHeaders integration))
         (match headers with Some h => h | None => JsMap.empty end);
     Request.body := if truthy data then Some data else None |}.

Definition apiCallEntry (integrationId method endpoint : string) (data : JsValue)
  (outcome : Completion Response.t) (responseTime : Z) : LogEntry.t :=
  {| LogEntry.integrationId := integrationId;
     LogEntry.type := EventType.api_call;
     LogEntry.direction := Direction.outbound;
     LogEntry.status :=
       match outcome with
       | Returned response =>
           if Response.ok response then EventStatus.success else EventStatus.failed
       | Threw _ => EventStatus.failed
       end;
     LogEntry.data := callData method endpoint data;
     LogEntry.error :=
       match outcome with
       | Returned response =>
           if Response.ok response then None
           else Some ("HTTP " ++ decimal (Response.status response))%string
       | Threw error => Some (message error)
       end;
     LogEntry.metadata :=
       Some {| Metadata.endpoint := Some endpoint;
               Metadata.httpStatus :=
                 match outcome with
                 | Returned response => Some (Response.status response)
                 | Threw _ => None
                 end;
               Metadata.responseTime := Some responseTime |} |}.

(** The rate-limit check of [makeApiCall] lets the call through. *)
Definition passesLimiter (env : Env) (integrationId : string) (s : State) : Prop :=
  forall rateLimiter,
    JsMap.get integrationId (rateLimiters (this s)) = Some rateLimiter ->
    fst (RateLimiter.canMakeRequest (clock env (ticks s)) rateLimiter) = true.

(** The readings of the outside before [startTime] is read. *)
Definition ticksAfterCheck (integrationId : string) (s : State) : nat :=
  match JsMap.get integrationId (rateLimiters (this s)) with
  | Some _ => S (ticks s)
  | None => ticks s
  end.

(** The limiter map after the check. *)
Definition limitersAfterCheck (env : Env) (integrationId : string) (s : State)
  : JsMap.t RateLimiter.t :=
  match JsMap.get integrationId (rateLimiters (this s)) with
  | Some rateLimiter =>
      JsMap.set integrationId
        (snd (RateLimiter.canMakeRequest (clock env (ticks s)) rateLimiter))
        (rateLimiters (this s))
  | None => rateLimiters (this s)
  end.

(** The value of the [Authorization] header that a call carries: the
    caller's own header, else the access token, else the API key. *)
Definition authorizationOf (integration : IntegrationConfig.t)
  (headers : option (JsMap.t string)) : option string :=
  match JsMap.get "Authorization" (match headers with Some h => h | None => JsMap.empty end) with
  | Some v => Some v
  | None =>
      match truthyString (Credentials.accessToken (IntegrationConfig.credentials integration)) with
      | Some token => Some ("Bearer " ++ token)%string
      | None =>
          match truthyString (Credentials.apiKey (IntegrationConfig.credentials integration)) with
          | Some key => Some ("Bearer " ++ key)%string
          | None => None
          end
      end
  end.

(** The state in which [registerIntegration] starts the connection test:
    the stamped config is stored and, if it declares limits, a new limiter
    is bound. *)
Definition stampedState (env : Env) (config : IntegrationConfig.t) (s : State) : State :=
  let integration :=
    IntegrationConfig.stamped config (clock env (ticks s)) (clock env (S (ticks s))) in
  {| this :=
       {| integrations :=
            JsMap.set (IntegrationConfig.id config) integration (integrations (this s));
          webhookHandlers := webhookHandlers (this s);
          events := events (this s);
          rateLimiters :=
            match Settings.rateLimits (IntegrationConfig.settings config) with
            | Some limits =>
                JsMap.set (IntegrationConfig.id config) (RateLimiter.new limits)
                  (rateLimiters (this s))
            | None => rateLimiters (this s)
            end |};
     ticks := 2 + ticks s;
     io := io s |}.

(** The string of an [IntegrationConfig['status']]. *)
Definition statusString (st : Status.t) : string :=
  match st with
  | Status.active => "active"
  | Status.inactive => "inactive"
  | Status.error => "error"
  | Status.pending => "pending"
  end.

Section Callers.

Variable env : Env.

(** [handleToggleIntegration] of the Integrations page
    (src/pages/Integrations.tsx): the list it returns is the one the page
    stores with [setIntegrations]. *)
Definition handleToggleIntegration (integrationId currentStatus : string)
  : M (list IntegrationConfig.t) :=
  let newStatus :=
    if (currentStatus =? "active")%string then Status.inactive else Status.active in
  updateIntegration env integrationId (PartialConfig.ofStatus newStatus) ;;
  (* Refresh integrations list *)
  allIntegrations <- listIntegrations None ;;
  ret allIntegrations.

(** The four configs of [setupCommonIntegrations]. *)
Definition commonConfig (id name : string) (category : Category.t) (provider : string)
  (syncEnabled : bool) (syncInterval : Z) (limits : RateLimits) (base : string)
  (others : JsMap.t string) : IntegrationConfig.t :=
  {| IntegrationConfig.id := id;
     IntegrationConfig.name := name;
     IntegrationConfig.category := category;
     IntegrationConfig.provider := provider;
     IntegrationConfig.status := Status.inactive;
     IntegrationConfig.credentials := Credentials.none;
     IntegrationConfig.settings :=
       {| Settings.syncEnabled := syncEnabled; Settings.syncInterval := syncInterval;
          Settings.lastSync := None; Settings.webhookUrl := None;
          Settings.rateLimits := Some limits |};
     IntegrationConfig.endpoints :=
       {| Endpoints.base := base; Endpoints.auth := None; Endpoints.webhook := None;
          Endpoints.others := others |};
     IntegrationConfig.createdAt := 0;
     IntegrationConfig.updatedAt := 0 |}.

Definition sendgrid : IntegrationConfig.t :=
  commonConfig "sendgrid" "SendGrid" Category.email "SendGrid" false 60
    {| requestsPerSecond := 10; requestsPerHour := 3600; requestsPerDay := 86400 |}
    "https://api.sendgrid.com/v3"
    [("send", "/mail/send"); ("templates", "/templates")].

Definition twilio : IntegrationConfig.t :=
  commonConfig "twilio" "Twilio" Category.sms "Twilio" false 30
    {| requestsPerSecond := 1; requestsPerHour := 3600; requestsPerDay := 86400 |}
    "https://api.twilio.com/2010-04-01"
    [("messages", "/Messages.json")].

Definition google_calendar : IntegrationConfig.t :=
  commonConfig "google_calendar" "Google Calendar" Category.calendar "Google" true 15
    {| requestsPerSecond := 10; requestsPerHour := 3600; requestsPerDay := 86400 |}
    "https://www.googleapis.com/calendar/v3"
    [("events", "/calendars/primary/events")].

Definition aws_s3 : IntegrationConfig.t :=
  commonConfig "aws_s3" "Amazon S3" Category.storage "AWS" false 60
    {| requestsPerSecond := 100; requestsPerHour := 360000; requestsPerDay := 8640000 |}
    "https://s3.amazonaws.com"
    [].

Definition commonIntegrations : list IntegrationConfig.t :=
  [sendgrid; twilio; google_calendar; aws_s3].

(** [setupCommonIntegrations] *)
Definition setupCommonIntegrations : M unit :=
  (* Email integrations *)
  registerIntegration env sendgrid ;;
  (* SMS integrations *)
  registerIntegration env twilio ;;
  (* Calendar integrations *)
  registerIntegration env google_calendar ;;
  (* Storage integrations *)
  registerIntegration env aws_s3 ;;
  ret tt.

End Callers.

(* ================================================================== *)
(** ** Sessions: sequences of calls of the public methods *)
(* ================================================================== *)

(** A call of a public method of the manager, or of one of its two callers,
    by a client that catches what the call throws. *)
Inductive Call : Type :=
| RegisterIntegration (config : IntegrationConfig.t)
| UpdateIntegration (id : string) (updates : PartialConfig.t)
| GetIntegration (id : string)
| ListIntegrations (category : option string)
| TestIntegration (id : string)
| MakeApiCall (integrationId method endpoint : string) (data : JsValue)
    (headers : option (JsMap.t string))
| RegisterWebhookHandler (handler : WebhookHandler.t)
| HandleWebhook (integrationId eventType : string) (data : JsValue)
| SyncData (integrationId : string) (direction : SyncDirection.t)
| GetEvents (integrationId : option string) (limit : Z)
| GetMetrics (integrationId : string) (timeframe : Timeframe.t)
| SetupCommonIntegrations
| ToggleIntegration (integrationId currentStatus : string).

(** The state after a call. *)
Definition perform (env : Env) (call : Call) (s : State) : State :=
  match call with
  | RegisterIntegration config => snd (registerIntegration env config s)
  | UpdateIntegration id updates => snd (updateIntegration env id updates s)
  | GetIntegration id => snd (getIntegration id s)
  | ListIntegrations category => snd (listIntegrations category s)
  | TestIntegration id => snd (testIntegration env id s)
  | MakeApiCall integrationId method endpoint data headers =>
      snd (makeApiCall env integrationId method endpoint data headers s)
  | RegisterWebhookHandler handler => snd (registerWebhookHandler handler s)
  | HandleWebhook integrationId eventType data =>
      snd (handleWebhook env integrationId eventType data s)
  | SyncData integrationId direction => snd (syncData env integrationId direction s)
  | GetEvents integrationId limit => snd (getEvents integrationId limit s)
  | GetMetrics integrationId timeframe => snd (getMetrics env integrationId timeframe s)
  | SetupCommonIntegrations => snd (setupCommonIntegrations env s)
  | ToggleIntegration integrationId currentStatus =>
      snd (handleToggleIntegration env integrationId currentStatus s)
  end.

(** The state after a sequence of calls, from [s]. *)
Definition performAll (env : Env) (calls : list Call) (s : State) : State :=
  fold_left (fun s' call => perform env call s') calls s.

(** What every logged event satisfies. *)
Definition wellFormedEvent (e : IntegrationEvent.t) : Prop :=
  IntegrationEvent.retryCount e = 0
  /\ IntegrationEvent.type e <> EventType.auth_refresh
  /\ IntegrationEvent.status e <> EventStatus.pending
  /\ (IntegrationEvent.direction e = Direction.inbound
      <-> IntegrationEvent.type e = EventType.webhook).

(** A family of states that every method of the manager stays in: it is
    closed under the four kinds of mutation that the methods do. *)
Record Closed (J : IntegrationManager -> Prop) : Prop := {
  closed_push : forall m e, J m -> wellFormedEvent e -> J (setEvents (pushEvent e) m);
  closed_store : forall m k c, J m -> J (setIntegrations (JsMap.set k c) m);
  closed_check : forall m k now rl,
      J m -> JsMap.get k (integrations m) <> None ->
      JsMap.get k (rateLimiters m) = Some rl ->
      J (setRateLimiters (JsMap.set k (snd (RateLimiter.canMakeRequest now rl))) m);
  closed_bind : forall m k lim,
      J m -> JsMap.get k (integrations m) <> None ->
      J (setRateLimiters (JsMap.set k (RateLimiter.new lim)) m);
  closed_handlers : forall m f, J m -> J (setWebhookHandlers f m)
}.

(** The log of a limiter is within its daily limit. *)
Definition boundedLimiter (rl : RateLimiter.t) : Prop :=
  (N.of_nat (length (RateLimiter.requests rl)) <= requestsPerDay (RateLimiter.limits rl))%N.

(** The invariant of the manager. *)
Record ManagerInvariant (m : IntegrationManager) : Prop := {
  inv_log_bound : (length (events m) <= MAX_EVENTS)%nat;
  inv_log_events : Forall wellFormedEvent (events m);
  inv_limiters_registered : forall k rl,
      JsMap.get k (rateLimiters m) = Some rl -> JsMap.get k (integrations m) <> None;
  inv_limiters_bounded : forall k rl,
      JsMap.get k (rateLimiters m) = Some rl -> boundedLimiter rl
}.

(** [m] keeps [J], however it ends. *)
Definition Keeps (J : IntegrationManager -> Prop) {A : Type} (m : M A) : Prop :=
  forall s, J (this s) -> J (this (snd (m s))).

(** [config] is set up in [m]: the registry holds its fields under its id,
    with a status that the connection test wrote, and its id is bound to a
    limiter with the declared limits that has admitted one request. *)
Definition SetUp (config : IntegrationConfig.t) (m : IntegrationManager) : Prop :=
  exists stored rl,
    JsMap.get (IntegrationConfig.id config) (integrations m) = Some stored
    /\ (IntegrationConfig.status stored = Status.active
        \/ IntegrationConfig.status stored = Status.error)
    /\ IntegrationConfig.name stored = IntegrationConfig.name config
    /\ IntegrationConfig.category stored = IntegrationConfig.category config
    /\ IntegrationConfig.provider stored = IntegrationConfig.provider config
    /\ IntegrationConfig.settings stored = IntegrationConfig.settings config
    /\ IntegrationConfig.endpoints stored = IntegrationConfig.endpoints config
    /\ JsMap.get (IntegrationConfig.id config) (rateLimiters m) = Some rl
    /\ Some (RateLimiter.limits rl) = Settings.rateLimits (IntegrationConfig.settings config)
    /\ length (RateLimiter.requests rl) = 1%nat.

(** A config that declares rate limits which admit a first request. *)
Definition Limited (config : IntegrationConfig.t) : Prop :=
  exists lim, Settings.rateLimits (IntegrationConfig.settings config) = Some lim
    /\ (1 <= requestsPerSecond lim)%N /\ (1 <= requestsPerHour lim)%N
    /\ (1 <= requestsPerDay lim)%N.

(* ================================================================== *)
(** ** Hashing and anonymization utilities *)
(* ================================================================== *)

(** The methods of [String.prototype] that the utilities call. A string is
    the sequence of its UTF-16 code units; the strings of this development
    hold the code units below 256, one per character. *)
Module JsString.

Definition chars (s : string) : list ascii := list_ascii_of_string s.
Definition ofChars (l : list ascii) : string := string_of_list_ascii l.

(** [s.charCodeAt(i)] of a character of [s] *)
Definition charCode (c : ascii) : Z := Z.of_N (N_of_ascii c).

(** [s.length] *)
Definition length (s : string) : Z := Z.of_nat (List.length (chars s)).

(** [s.substring(start, end)]: both indices are clamped to the string, and
    swapped if [start] is the larger. *)
Definition substring (start end_ : Z) (s : string) : string :=
  let len := length s in
  let finalStart := Z.min (Z.max start 0) len in
  let finalEnd := Z.min (Z.max end_ 0) len in
  let from := Z.min finalStart finalEnd in
  let to := Z.max finalStart finalEnd in
  ofChars (firstn (Z.to_nat (to - from)) (skipn (Z.to_nat from) (chars s))).

(** [s.slice(start)]: a negative [start] counts from the end. *)
Definition slice (start : Z) (s : string) : string :=
  let len := length s in
  let from := if start <? 0 then Z.max (len + start) 0 else Z.min start len in
  ofChars (skipn (Z.to_nat from) (chars s)).

(** [s.repeat(count)] throws a [RangeError] on a negative [count]. *)
Definition repeat (s : string) (count : Z) : Completion string :=
  if count <? 0
  then Threw (Error ("Invalid count value: " ++ decimal count))
  else Returned (ofChars (concat (List.repeat (chars s) (Z.to_nat count)))).

(** [s.split(separator)], for a separator of one character. *)
Fixpoint splitChars (separator : ascii) (l : list ascii) : list (list ascii) :=
  match l with
  | [] => [[]]
  | c :: l' =>
      if Ascii.eqb c separator then [] :: splitChars separator l'
      else match splitChars separator l' with
           | part :: parts => (c :: part) :: parts
           | [] => [[c]]
           end
  end.

Definition split (separator : ascii) (s : string) : list string :=
  map ofChars (splitChars separator (chars s)).

(** [parts.join(separator)] *)
Definition join (separator : string) (parts : list string) : string :=
  String.concat separator parts.

(** [s.toLowerCase()]: of the code units below 256, the letters [A] to [Z]
    and [À] to [Þ] (but not [×]) have a lower case, 32 further. *)
Definition lower (c : ascii) : ascii :=
  let n := nat_of_ascii c in
  if ((65 <=? n) && (n <=? 90) || (192 <=? n) && (n <=? 222) && negb (n =? 215))%nat
  then ascii_of_nat (n + 32) else c.

Definition toLowerCase (s : string) : string := ofChars (map lower (chars s)).

(** The class [\d] of a regular expression. *)
Definition isDigit (c : ascii) : bool :=
  let n := nat_of_ascii c in ((48 <=? n) && (n <=? 57))%nat.

(** [s.replace(/\D/g, '')] *)
Definition removeNonDigits (s : string) : string := ofChars (filter isDigit (chars s)).

End JsString.

(** Sequencing of calls that may throw. *)
Definition andThen {A B : Type} (c : Completion A) (k : A -> Completion B) : Completion B :=
  match c with
  | Returned a => k a
  | Threw e => Threw e
  end.

Declare Scope completion_scope.
Delimit Scope completion_scope with completion.
Notation "x <- m ;; k" := (andThen m (fun x => k))
  (at level 61, m at next level, right associativity) : completion_scope.

(** [parts.map((part, index) => f(part, index))], for an [f] that may throw. *)
Fixpoint mapIndexed {A B : Type} (f : A -> nat -> Completion B) (index : nat) (l : list A)
  : Completion (list B) :=
  match l with
  | [] => Returned []
  | x :: l' =>
      (y <- f x index ;;
       ys <- mapIndexed f (S index) l' ;;
       Returned (y :: ys))%completion
  end.

(** [ToInt32]: the operands and the result of [<<] and [&] are 32-bit
    two's complement integers. *)
Definition toInt32 (x : Z) : Z :=
  let r := x mod 2 ^ 32 in
  if r >=? 2 ^ 31 then r - 2 ^ 32 else r.

(** [a << b] and [a & b] *)
Definition shiftLeft (a b : Z) : Z := toInt32 (Z.shiftl (toInt32 a) (b mod 32)).
Definition bitAnd (a b : Z) : Z := toInt32 (Z.land (toInt32 a) (toInt32 b)).

(** [n.toString(16)] of an integer [n]. *)
Definition toString16 (n : Z) : string :=
  HexadecimalString.NilZero.string_of_int (Z.to_hex_int n).

(** The body of the loop of [hashForSearch]. The numbers that it adds and
    subtracts are below 2^53 in size, so the arithmetic of doubles is
    exact on them. *)
Definition hashStep (hash : Z) (char : Z) : Z :=
  let hash := (shiftLeft hash 5 - hash) + char in
  bitAnd hash hash. (* Convert to 32-bit integer *)

(** [hashForSearch] *)
Definition hashForSearch (data salt : string) : string :=
  let combined := (data ++ salt)%string in
  let hash := fold_left hashStep (map JsString.charCode (JsString.chars combined)) 0 in
  toString16 hash.

Section Anonymizer.

(** [new Date(value).getFullYear()], or [None] where the date is invalid
    ([isNaN(date.getTime())]). *)
Variable fullYear : string -> option Z.

(** [DataAnonymizer.anonymizeField] *)
Definition anonymizeField (value fieldType : string) : Completion string :=
  let fieldType := JsString.toLowerCase fieldType in
  if (fieldType =? "email")%string then
    let emailParts := JsString.split "@" value in
    match emailParts with
    | [username; domain] =>
        (maskedUsername <-
           (if JsString.length username >? 2
            then stars <- JsString.repeat "*" (JsString.length username - 2) ;;
                 Returned (JsString.substring 0 2 username ++ stars)%string
            else JsString.repeat "*" (JsString.length username)) ;;
         Returned (maskedUsername ++ "@" ++ domain)%string)%completion
    | _ => Returned "***@***.***"
    end
  else if (fieldType =? "phone")%string then
    let phoneDigits := JsString.removeNonDigits value in
    if JsString.length phoneDigits >=? 7 then
      (stars <- JsString.repeat "*" (JsString.length phoneDigits - 6) ;;
       let masked :=
         (JsString.substring 0 3 phoneDigits ++ stars ++ JsString.slice (-3) phoneDigits)%string in
       Returned masked)%completion
    else JsString.repeat "*" (JsString.length value)
  else if (fieldType =? "address")%string then
    let addressParts := JsString.split " " value in
    (masked <- mapIndexed
                 (fun part index =>
                    if Nat.eqb index 0 then Returned part
                    else JsString.repeat "*" (JsString.length part))
                 0 addressParts ;;
     Returned (JsString.join " " masked))%completion
  else if (fieldType =? "ssn")%string then
    Returned ("***-**-" ++ JsString.slice (-4) value)%string
  else if (fieldType =? "dob")%string then
    match fullYear value with
    | Some year => Returned ("**/**/" ++ decimal year)%string
    | None => Returned "**/**/****"
    end
  else
    (* Generic masking *)
    if JsString.length value <=? 4 then JsString.repeat "*" (JsString.length value)
    else
      (stars <- JsString.repeat "*" (JsString.length value - 4) ;;
       Returned (JsString.substring 0 2 value ++ stars ++ JsString.slice (-2) value)%string)%completion.

End Anonymizer.

(* ================================================================== *)
(** * Properties *)
(* ================================================================== *)

(* ================================================================== *)
(** ** Lists: filters and suffixes *)
(* ================================================================== *)

Section ListFacts.
Context {A : Type}.

Lemma filter_filter_sub (p q : A -> bool) (l : list A) :
  (forall x, In x l -> p x = true -> q x = true) ->
  filter p (filter q l) = filter p l.
Proof.
  induction l as [|a l IH]; intros Hpq; simpl; [reflexivity|].
  assert (IH' : filter p (filter q l) = filter p l)
    by (apply IH; intros x Hx; apply Hpq; right; exact Hx).
  destruct (q a) eqn:Hq; simpl.
  - rewrite IH'. reflexivity.
  - destruct (p a) eqn:Hp.
    + rewrite (Hpq a (or_introl eq_refl) Hp) in Hq. discriminate.
    + exact IH'.
Qed.

Lemma length_filter_sub (p q : A -> bool) (l : list A) :
  (forall x, In x l -> p x = true -> q x = true) ->
  (length (filter p l) <= length (filter q l))%nat.
Proof.
  induction l as [|a l IH]; intros Hpq; simpl; [lia|].
  assert (IH' : (length (filter p l) <= length (filter q l))%nat)
    by (apply IH; intros x Hx; apply Hpq; right; exact Hx).
  destruct (p a) eqn:Hp.
  - rewrite (Hpq a (or_introl eq_refl) Hp). simpl. lia.
  - destruct (q a); simpl; lia.
Qed.


End ListFacts.

(* ================================================================== *)
(** ** Rate limiter *)
(* ================================================================== *)

Module RateLimiterFacts.
Import RateLimiter.

Lemma canMakeRequest_requests now rl :
  requests (snd (canMakeRequest now rl)) =
  filter (fun time => time >? now - DAY) (requests rl)
  ++ (if fst (canMakeRequest now rl) then [now] else []).
Proof.
  unfold canMakeRequest, DAY.
  destruct (_ || _); simpl; [rewrite app_nil_r|]; reflexivity.
Qed.

Lemma canMakeRequest_limits now rl :
  limits (snd (canMakeRequest now rl)) = limits rl.
Proof. unfold canMakeRequest. destruct (_ || _); reflexivity. Qed.

(** Counting inside the pruned log is counting inside the log. *)
Lemma countSince_pruned width now c l :
  width <= DAY -> c <= now ->
  countSince width now (filter (fun time => time >? c - DAY) l) = countSince width now l.
Proof.
  intros Hw Hc. unfold countSince. f_equal. apply filter_filter_sub.
  intros x _ Hx. apply Z.gtb_lt in Hx. apply Z.gtb_lt. lia.
Qed.

(** When a call admits, each window held fewer requests than its limit. *)
Lemma canMakeRequest_true now rl :
  fst (canMakeRequest now rl) = true ->
  forall width limit, In (width, limit) (windows (limits rl)) ->
  (N.of_nat (countSince width now (requests rl)) < limit)%N.
Proof.
  intros H width limit Hin.
  rewrite <- (countSince_pruned width now now (requests rl)).
  2:{ unfold windows, DAY in *. simpl in Hin.
      destruct Hin as [E|[E|[E|[]]]]; inversion E; lia. }
  2: lia.
  unfold canMakeRequest in H. fold DAY in H.
  destruct (_ || _) eqn:Hor in H; [discriminate|].
  apply orb_false_elim in Hor. destruct Hor as [Hor Hd].
  apply orb_false_elim in Hor. destruct Hor as [Hs Hh].
  apply N.leb_gt in Hs, Hh, Hd.
  unfold windows in Hin. simpl in Hin.
  destruct Hin as [E|[E|[E|[]]]]; inversion E; subst; unfold countSince.
  - exact Hs.
  - exact Hh.
  - rewrite filter_filter_sub by (intros; assumption). exact Hd.
Qed.

Lemma Inv_new l hi : Inv (new l) [] hi.
Proof.
  split; simpl; intros.
  - constructor.
  - reflexivity.
  - unfold countInWindow. simpl. lia.
Qed.

Lemma windows_width l width limit :
  In (width, limit) (windows l) -> 0 <= width <= DAY.
Proof.
  unfold windows, DAY. simpl. intros [E|[E|[E|[]]]]; inversion E; lia.
Qed.

Lemma Inv_step rl adm hi now :
  Inv rl adm hi -> hi <= now ->
  Inv (snd (canMakeRequest now rl))
      (adm ++ (if fst (canMakeRequest now rl) then [now] else [])) now.
Proof.
  intros [Hpast Hlog Hbound] Hle. split.
  - apply Forall_app. split.
    + eapply Forall_impl; [|exact Hpast]. simpl. intros. lia.
    + destruct (fst _); repeat constructor. lia.
  - intros c Hc. rewrite canMakeRequest_requests, !filter_app. f_equal.
    rewrite filter_filter_sub.
    + apply Hlog. lia.
    + intros x _ Hx. apply Z.gtb_lt in Hx. apply Z.gtb_lt. lia.
  - intros width limit T Hin. rewrite canMakeRequest_limits in Hin.
    destruct (fst (canMakeRequest now rl)) eqn:Hadm.
    2:{ rewrite app_nil_r. apply Hbound. exact Hin. }
    pose proof (windows_width _ _ _ Hin) as Hw.
    unfold countInWindow. rewrite filter_app, length_app. simpl.
    destruct (inWindow width T now) eqn:Hnow; simpl.
    2:{ rewrite Nat.add_0_r. apply (Hbound width limit T Hin). }
    pose proof (canMakeRequest_true now rl Hadm width limit Hin) as Hlt.
    unfold countSince in Hlt. rewrite (Hlog (now - width)) in Hlt by lia.
    apply andb_prop in Hnow. destruct Hnow as [H1 H2].
    apply Z.ltb_lt in H1. apply Z.leb_le in H2.
    assert ((length (filter (inWindow width T) adm)
             <= length (filter (fun time => time >? now - width) adm))%nat) as Hsub.
    { apply length_filter_sub. intros x _ Hx. unfold inWindow in Hx.
      apply andb_prop in Hx. destruct Hx as [Hx _]. apply Z.ltb_lt in Hx.
      apply Z.gtb_lt. lia. }
    lia.
Qed.

Lemma calls_Inv times : forall rl adm hi,
  Inv rl adm hi -> StronglySorted Z.le times -> Forall (fun time => hi <= time) times ->
  exists hi', Inv (snd (calls times rl)) (adm ++ admitted (fst (calls times rl))) hi'.
Proof.
  induction times as [|now times IH]; intros rl adm hi HI Hs Hhi; simpl.
  - exists hi. unfold admitted. simpl. rewrite app_nil_r. exact HI.
  - inversion Hs as [|? ? Hs' Hall]; subst. inversion Hhi as [|? ? Hnow _]; subst.
    pose proof (Inv_step rl adm hi now HI Hnow) as HI'.
    destruct (canMakeRequest now rl) as [r rl'] eqn:Hc. simpl in HI'.
    destruct (IH rl' _ now HI' Hs' Hall) as [hi' HI''].
    destruct (calls times rl') as [rs rl''] eqn:Hcs. simpl in *.
    exists hi'. unfold admitted in *. simpl.
    destruct r; simpl; rewrite <- ?app_assoc in HI''; simpl in HI''.
    + exact HI''.
    + exact HI''.
Qed.

Lemma calls_limits times : forall rl, limits (snd (calls times rl)) = limits rl.
Proof.
  induction times as [|now times IH]; intros rl; simpl; [reflexivity|].
  pose proof (canMakeRequest_limits now rl) as Hl.
  destruct (canMakeRequest now rl) as [r rl']. specialize (IH rl').
  destruct (calls times rl') as [rs rl'']. simpl in *. congruence.
Qed.

End RateLimiterFacts.

(** C1. Rate limiter soundness: whatever the limits and whatever the
    nondecreasing sequence of clock readings at which [canMakeRequest] is
    called on a new limiter, the calls that returned [true] and whose
    timestamps lie in the trailing window of one second, one hour or 24 hours
    that ends at any instant [T] are never more than the limit configured
    for that window; and a call that returns [true] leaves, in the same
    step, its timestamp appended to the (pruned) log. *)
Theorem rate_limiter_soundness (lim : RateLimits) (times : list Z) :
  Sorted Z.le times ->
  let run := RateLimiter.calls times (RateLimiter.new lim) in
  (forall T,
     (RateLimiter.countInWindow 1000 T (RateLimiter.admitted (fst run))
        <= requestsPerSecond lim)%N
     /\ (RateLimiter.countInWindow 3600000 T (RateLimiter.admitted (fst run))
           <= requestsPerHour lim)%N
     /\ (RateLimiter.countInWindow 86400000 T (RateLimiter.admitted (fst run))
           <= requestsPerDay lim)%N)
  /\ (forall now rl,
        fst (RateLimiter.canMakeRequest now rl) = true ->
        RateLimiter.requests (snd (RateLimiter.canMakeRequest now rl))
        = filter (fun time => time >? now - 86400000) (RateLimiter.requests rl) ++ [now]).
Proof.
  intros Hs run. split.
  - intros T.
    assert (Hss : StronglySorted Z.le times).
    { apply Sorted_StronglySorted; [|exact Hs]. intros x y z; apply Z.le_trans. }
    assert (Hhi : exists hi, Forall (fun time => hi <= time) times).
    { destruct Hss as [|a l Hl Ha].
      - exists 0. constructor.
      - exists a. constructor; [lia|exact Ha]. }
    destruct Hhi as [hi Hhi].
    destruct (RateLimiterFacts.calls_Inv times _ [] hi
                (RateLimiterFacts.Inv_new lim hi) Hss Hhi) as [hi' [_ _ Hb]].
    rewrite RateLimiterFacts.calls_limits in Hb. simpl in Hb.
    subst run. repeat split; apply Hb; unfold RateLimiter.windows, RateLimiter.DAY;
      simpl; auto.
  - intros now rl H. rewrite RateLimiterFacts.canMakeRequest_requests, H. reflexivity.
Qed.

Lemma rate_limiter_soundness_witness :
  Sorted Z.le [0; 200; 400; 1000; 1300]
  /\ RateLimiter.admitted
       (fst (RateLimiter.calls [0; 200; 400; 1000; 1300]
               (RateLimiter.new Scenario.limits_1_5_10))) = [0; 1000]
  /\ (forall T,
        N.le
          (RateLimiter.countInWindow 1000 T
             (RateLimiter.admitted
                (fst (RateLimiter.calls [0; 200; 400; 1000; 1300]
                        (RateLimiter.new Scenario.limits_1_5_10)))))
          1%N).
Proof.
  assert (Hs : Sorted Z.le [0; 200; 400; 1000; 1300])
    by (repeat constructor; discriminate).
  split; [exact Hs|]. split; [reflexivity|].
  intros T.
  apply (rate_limiter_soundness Scenario.limits_1_5_10 [0; 200; 400; 1000; 1300] Hs).
Defined.

(** Scenario 1 of the specification: with limits 1/second, 5/hour, 10/day,
    of five calls within the same second the first is admitted and the next
    four are rejected. *)
Example five_calls_within_one_second :
  map snd (fst (RateLimiter.calls [0; 1; 2; 3; 4]
                  (RateLimiter.new Scenario.limits_1_5_10)))
  = [true; false; false; false; false].
Proof. reflexivity. Qed.

(** C2. Rejection leaves admissions unchanged: a [canMakeRequest] call that
    returns [false] appends nothing to the limiter's log (the log after the
    call is the log before it without the entries older than 24 hours) and
    keeps the limits, so the number of admitted requests that a check counts
    in the windows of one second, one hour and 24 hours is the same after the
    call as before it, at the instant of the call and at any later one, and
    the next check answers as if the rejected call had not happened. *)
Theorem rate_limiter_rejection_frame (now : Z) (rl : RateLimiter.t) :
  fst (RateLimiter.canMakeRequest now rl) = false ->
  let rl' := snd (RateLimiter.canMakeRequest now rl) in
  RateLimiter.requests rl'
  = filter (fun time => time >? now - 86400000) (RateLimiter.requests rl)
  /\ RateLimiter.limits rl' = RateLimiter.limits rl
  /\ (forall later, now <= later ->
        RateLimiter.countSince 1000 later (RateLimiter.requests rl')
        = RateLimiter.countSince 1000 later (RateLimiter.requests rl)
        /\ RateLimiter.countSince 3600000 later (RateLimiter.requests rl')
           = RateLimiter.countSince 3600000 later (RateLimiter.requests rl)
        /\ RateLimiter.countSince 86400000 later (RateLimiter.requests rl')
           = RateLimiter.countSince 86400000 later (RateLimiter.requests rl)
        /\ RateLimiter.canMakeRequest later rl' = RateLimiter.canMakeRequest later rl).
Proof.
  intros H rl'.
  assert (Hreq : RateLimiter.requests rl'
                 = filter (fun time => time >? now - RateLimiter.DAY)
                     (RateLimiter.requests rl)).
  { subst rl'. rewrite RateLimiterFacts.canMakeRequest_requests, H. apply app_nil_r. }
  assert (Hlim : RateLimiter.limits rl' = RateLimiter.limits rl)
    by apply RateLimiterFacts.canMakeRequest_limits.
  split; [exact Hreq|]. split; [exact Hlim|].
  intros later Hle. rewrite Hreq.
  repeat split;
    try (apply RateLimiterFacts.countSince_pruned; unfold RateLimiter.DAY; lia).
  unfold RateLimiter.canMakeRequest. rewrite Hlim, Hreq.
  rewrite (filter_filter_sub (fun time => time >? later - 86400000)).
  - reflexivity.
  - intros x _ Hx. apply Z.gtb_lt in Hx. apply Z.gtb_lt.
    unfold RateLimiter.DAY. lia.
Qed.

Lemma rate_limiter_rejection_frame_witness :
  let rl := snd (RateLimiter.canMakeRequest 5000 (RateLimiter.new Scenario.limits_1_5_10)) in
  fst (RateLimiter.canMakeRequest 5400 rl) = false
  /\ RateLimiter.requests (snd (RateLimiter.canMakeRequest 5400 rl)) = [5000]
  /\ RateLimiter.canMakeRequest 6000 (snd (RateLimiter.canMakeRequest 5400 rl))
     = RateLimiter.canMakeRequest 6000 rl.
Proof.
  intros rl. split; [reflexivity|]. split; [reflexivity|].
  apply (rate_limiter_rejection_frame 5400 rl eq_refl). discriminate.
Defined.

(* ================================================================== *)
(** ** Maps *)
(* ================================================================== *)

Module JsMapFacts.
Section Facts.
Context {V : Type}.
Implicit Types (m : JsMap.t V) (k : string) (v : V).

Lemma get_set_same k v m : JsMap.get k (JsMap.set k v m) = Some v.
Proof.
  induction m as [|[k' v'] m IH]; simpl.
  - rewrite String.eqb_refl. reflexivity.
  - destruct (k' =? k)%string eqn:E; simpl.
    + rewrite String.eqb_refl. reflexivity.
    + rewrite E. exact IH.
Qed.

Lemma get_set_other k k' v m : k <> k' -> JsMap.get k' (JsMap.set k v m) = JsMap.get k' m.
Proof.
  intros Hne. induction m as [|[k0 v0] m IH]; simpl.
  - destruct (k =? k')%string eqn:E; [apply String.eqb_eq in E; contradiction|reflexivity].
  - destruct (k0 =? k)%string eqn:E; simpl.
    + apply String.eqb_eq in E. subst k0.
      destruct (k =? k')%string eqn:E'; [apply String.eqb_eq in E'; contradiction|reflexivity].
    + destruct (k0 =? k')%string; [reflexivity|exact IH].
Qed.

End Facts.
End JsMapFacts.

(* ================================================================== *)
(** ** The event log *)
(* ================================================================== *)

Section LogFacts.
Context {A : Type}.
Implicit Types (l a b : list A) (n : nat).

Lemma length_slice_last n l : length (slice_last n l) = Nat.min n (length l).
Proof. unfold slice_last. rewrite length_skipn. lia. Qed.

Lemma slice_last_all n l : (length l <= n)%nat -> slice_last n l = l.
Proof.
  intros H. unfold slice_last. replace (length l - n)%nat with 0%nat by lia. reflexivity.
Qed.

Lemma slice_last_app n a b :
  slice_last n (slice_last n a ++ b) = slice_last n (a ++ b).
Proof.
  destruct (Nat.le_gt_cases (length a) n) as [Hle|Hgt].
  - rewrite (slice_last_all n a) by exact Hle. reflexivity.
  - unfold slice_last at 1 3. rewrite !length_app, length_slice_last.
    rewrite !skipn_app, length_slice_last.
    unfold slice_last. rewrite skipn_skipn.
    replace (Nat.min n (length a) + length b - n + (length a - n))%nat
      with (length a + length b - n)%nat by lia.
    replace (Nat.min n (length a) + length b - n - Nat.min n (length a))%nat
      with (length a + length b - n - length a)%nat by lia.
    reflexivity.
Qed.

(** What [slice(-n)] drops is a prefix, and it drops nothing while the
    array is within [n]. *)
Lemma slice_last_suffix n l :
  l = firstn (length l - n) l ++ slice_last n l.
Proof. unfold slice_last. symmetry. apply firstn_skipn. Qed.

End LogFacts.

Lemma MAX_EVENTS_value : Z.of_nat MAX_EVENTS = 10000.
Proof. reflexivity. Qed.

Lemma pushEvent_slice event log :
  pushEvent event log = slice_last MAX_EVENTS (log ++ [event]).
Proof.
  unfold pushEvent. destruct (Nat.ltb_spec MAX_EVENTS (length (log ++ [event]))) as [H|H].
  - reflexivity.
  - symmetry. apply slice_last_all. exact H.
Qed.

Lemma pushEvents_slice evs : forall log,
  evs <> [] -> pushEvents evs log = slice_last MAX_EVENTS (log ++ evs).
Proof.
  induction evs as [|e evs IH]; intros log Hne; [contradiction|].
  unfold pushEvents. simpl. fold (pushEvents evs (pushEvent e log)).
  destruct evs as [|e' evs].
  - simpl. apply pushEvent_slice.
  - rewrite IH by discriminate. rewrite pushEvent_slice, slice_last_app.
    rewrite <- app_assoc. reflexivity.
Qed.

Lemma pushEvents_app evs1 evs2 log :
  pushEvents (evs1 ++ evs2) log = pushEvents evs2 (pushEvents evs1 log).
Proof. unfold pushEvents. apply fold_left_app. Qed.

Lemma pushEvents_bound evs log :
  (length log <= MAX_EVENTS)%nat -> (length (pushEvents evs log) <= MAX_EVENTS)%nat.
Proof.
  intros H. destruct evs as [|e evs]; [exact H|].
  rewrite pushEvents_slice by discriminate. rewrite length_slice_last. lia.
Qed.

(* ================================================================== *)
(** ** Running the methods *)
(* ================================================================== *)

Lemma bind_returned {A B : Type} (m : M A) (k : A -> M B) s a s' :
  m s = (Returned a, s') -> bind m k s = k a s'.
Proof. intros H. unfold bind. rewrite H. reflexivity. Qed.

Lemma bind_threw {A B : Type} (m : M A) (k : A -> M B) s e s' :
  m s = (Threw e, s') -> bind m k s = (Threw e, s').
Proof. intros H. unfold bind. rewrite H. reflexivity. Qed.

Section Runs.

Variable env : Env.

Lemma logEvent_run a s :
  logEntry env a s
  = (Returned tt, logged s 3 (pushEvent (eventAt env (ticks s) a) (events (this s)))).
Proof. reflexivity. Qed.

Lemma logEvents_run entries : forall s,
  fst (logEvents env entries s) = Returned tt
  /\ ticks (snd (logEvents env entries s)) = (3 * length entries + ticks s)%nat
  /\ io (snd (logEvents env entries s)) = io s
  /\ integrations (this (snd (logEvents env entries s))) = integrations (this s)
  /\ events (this (snd (logEvents env entries s)))
     = pushEvents (appended env (ticks s) entries) (events (this s)).
Proof.
  induction entries as [|a entries IH]; intros s.
  - simpl. repeat split; reflexivity.
  - unfold logEvents. simpl forEach.
    rewrite (bind_returned _ _ _ _ _ (logEvent_run a s)).
    fold (logEvents env entries).
    destruct (IH (logged s 3 (pushEvent (eventAt env (ticks s) a) (events (this s)))))
      as (H1 & H2 & H3 & H4 & H5).
    repeat split.
    + exact H1.
    + rewrite H2. simpl. lia.
    + rewrite H3. reflexivity.
    + rewrite H4. reflexivity.
    + rewrite H5. reflexivity.
Qed.

End Runs.

(** C3. Event Log bound and FIFO eviction: after any sequence of [logEvent]
    calls on a new manager, the stored array holds at most 10,000 events,
    and it holds exactly the most recently appended ones: the events of the
    whole sequence are those evicted, oldest first, followed by the stored
    array, and nothing is evicted before the array is full. *)
Theorem event_log_bound_fifo (env : Env) (n : nat) (trace : list IOEvent)
  (entries : list LogEntry.t) :
  let s0 := {| this := newIntegrationManager; ticks := n; io := trace |} in
  let run := logEvents env entries s0 in
  let all := appended env n entries in
  let log := events (this (snd run)) in
  fst run = Returned tt
  /\ length all = length entries
  /\ Z.of_nat (length log) <= 10000
  /\ Z.of_nat (length log) = Z.min 10000 (Z.of_nat (length entries))
  /\ log = slice_last MAX_EVENTS all
  /\ all = firstn (length all - MAX_EVENTS) all ++ log.
Proof.
  intros s0 run all log.
  assert (Hlen : forall k, length (appended env k entries) = length entries).
  { induction entries as [|a l IH]; intros k; simpl; [reflexivity|]. rewrite IH. reflexivity. }
  destruct (logEvents_run env entries s0) as (H1 & _ & _ & _ & H5).
  assert (Hlog : log = slice_last MAX_EVENTS all).
  { subst log run. rewrite H5. simpl. fold all.
    destruct all as [|e all'] eqn:E; [reflexivity|].
    rewrite pushEvents_slice by discriminate. reflexivity. }
  pose proof MAX_EVENTS_value as HM.
  assert (Hl : length log = Nat.min MAX_EVENTS (length entries)).
  { rewrite Hlog, length_slice_last. subst all. rewrite Hlen. reflexivity. }
  repeat split.
  - exact H1.
  - apply Hlen.
  - rewrite Hl. lia.
  - rewrite Hl. lia.
  - exact Hlog.
  - rewrite Hlog. apply slice_last_suffix.
Qed.

(* ================================================================== *)
(** ** Registry and Dispatcher *)
(* ================================================================== *)

Section Registry.
Variable env : Env.

Lemma updateIntegration_unknown id updates s :
  JsMap.get id (integrations (this s)) = None ->
  updateIntegration env id updates s = (Threw (notFound id), s).
Proof. intros H. unfold updateIntegration, bind, read. rewrite H. reflexivity. Qed.

Lemma updateIntegration_run id updates s c :
  JsMap.get id (integrations (this s)) = Some c ->
  updateIntegration env id updates s
  = (Returned tt,
     {| this := setIntegrations
                  (JsMap.set id (PartialConfig.merge c updates (clock env (ticks s))))
                  (this s);
        ticks := S (ticks s);
        io := io s |}).
Proof. intros H. unfold updateIntegration, bind, read. rewrite H. reflexivity. Qed.

Lemma makeApiCall_unknown id method endpoint data headers s :
  JsMap.get id (integrations (this s)) = None ->
  makeApiCall env id method endpoint data headers s = (Threw (notFound id), s).
Proof.
  intros H. unfold makeApiCall, bind, read. rewrite H. reflexivity.
Qed.

Lemma makeApiCall_rejected id method endpoint data headers s c rl :
  JsMap.get id (integrations (this s)) = Some c ->
  JsMap.get id (rateLimiters (this s)) = Some rl ->
  fst (RateLimiter.canMakeRequest (clock env (ticks s)) rl) = false ->
  makeApiCall env id method endpoint data headers s
  = (Threw rateLimitExceeded,
     {| this := setRateLimiters
                  (JsMap.set id (snd (RateLimiter.canMakeRequest (clock env (ticks s)) rl)))
                  (this s);
        ticks := S (ticks s);
        io := io s |}).
Proof.
  intros Hc Hrl Hrej. unfold makeApiCall, bind, read. rewrite Hc, Hrl.
  unfold limiterCanMakeRequest, bind, Date_now. simpl.
  destruct (RateLimiter.canMakeRequest (clock env (ticks s)) rl) as [allowed rl'].
  simpl in *. subst allowed. reflexivity.
Qed.

(** What a Dispatcher call leaves untouched, and what it may log: nothing,
    or one [api_call] event. *)
Lemma makeApiCall_frame id method endpoint data headers s :
  let s' := snd (makeApiCall env id method endpoint data headers s) in
  integrations (this s') = integrations (this s)
  /\ webhookHandlers (this s') = webhookHandlers (this s)
  /\ (events (this s') = events (this s)
      \/ exists e, IntegrationEvent.type e = EventType.api_call
                   /\ events (this s') = pushEvent e (events (this s))).
Proof.
  unfold makeApiCall, limiterCanMakeRequest, logEvent, bind, read, try_catch, fetch,
    Date_now, Math_random36, mutate, ret, throw.
  destruct (JsMap.get id (integrations (this s))) as [c|]; cbn; [|auto].
  destruct (JsMap.get id (rateLimiters (this s))) as [rl|]; cbn.
  - destruct (RateLimiter.canMakeRequest (clock env (ticks s)) rl) as [[|] rl']; cbn.
    + destruct (network env _ _) as [r|err]; cbn;
        (split; [reflexivity|split; [reflexivity|right; eexists; split; [|reflexivity]; reflexivity]]).
    + auto.
  - destruct (network env _ _) as [r|err]; cbn;
      (split; [reflexivity|split; [reflexivity|right; eexists; split; [|reflexivity]; reflexivity]]).
Qed.


(** A Dispatcher call for an integration with a bound limiter leaves in the
    map the limiter after its check, whether the check admits or not. *)
Lemma makeApiCall_limiter id method endpoint data headers s c rl :
  JsMap.get id (integrations (this s)) = Some c ->
  JsMap.get id (rateLimiters (this s)) = Some rl ->
  rateLimiters (this (snd (makeApiCall env id method endpoint data headers s)))
  = JsMap.set id (snd (RateLimiter.canMakeRequest (clock env (ticks s)) rl))
      (rateLimiters (this s)).
Proof.
  intros Hc Hrl.
  unfold makeApiCall, limiterCanMakeRequest, logEvent, bind, read, try_catch, fetch,
    Date_now, Math_random36, mutate, ret, throw.
  rewrite Hc, Hrl. cbn.
  destruct (RateLimiter.canMakeRequest (clock env (ticks s)) rl) as [[|] rl']; cbn.
  - destruct (network env _ _) as [r|err]; reflexivity.
  - reflexivity.
Qed.

(** A rejected check. *)
Lemma testIntegration_unknown id s :
  JsMap.get id (integrations (this s)) = None ->
  testIntegration env id s = (Threw (notFound id), s).
Proof. intros H. unfold testIntegration, bind, read. rewrite H. reflexivity. Qed.

Lemma syncData_unknown id direction s :
  JsMap.get id (integrations (this s)) = None ->
  syncData env id direction s = (Returned tt, s).
Proof. intros H. unfold syncData, bind, read. rewrite H. reflexivity. Qed.


End Registry.


(** Equations of the monad. *)
Lemma read_bind {A B : Type} (f : IntegrationManager -> A) (k : A -> M B) s :
  bind (read f) k s = k (f (this s)) s.
Proof. reflexivity. Qed.

Lemma try_catch_bind {A B : Type} (m : M A) (k : A -> M B) (h : JsError -> M B) s :
  try_catch (bind m k) h s
  = match m s with
    | (Returned a, s') => try_catch (k a) h s'
    | (Threw e, s') => h e s'
    end.
Proof. unfold try_catch, bind. destruct (m s) as [[a|e] s']; reflexivity. Qed.

Lemma Date_now_bind {B : Type} (env : Env) (k : Z -> M B) s :
  bind (Date_now env) k s = k (clock env (ticks s)) (advance s).
Proof. reflexivity. Qed.

Lemma mutate_bind {B : Type} (f : IntegrationManager -> IntegrationManager)
  (k : unit -> M B) s :
  bind (mutate f) k s = k tt {| this := f (this s); ticks := ticks s; io := io s |}.
Proof. reflexivity. Qed.

Lemma ret_bind {A B : Type} (a : A) (k : A -> M B) s : bind (ret a) k s = k a s.
Proof. reflexivity. Qed.

Lemma try_catch_returned {A : Type} (m : M A) (h : JsError -> M A) s a s' :
  m s = (Returned a, s') -> try_catch m h s = (Returned a, s').
Proof. intros H. unfold try_catch. rewrite H. reflexivity. Qed.

(** The connection test of a registered integration, in terms of how its
    Dispatcher call ends. *)
Lemma testIntegration_registered (env : Env) (id : string) (s : State)
  (c : IntegrationConfig.t) :
  JsMap.get id (integrations (this s)) = Some c ->
  let call :=
    makeApiCall env id "GET"
      (Endpoints.base (IntegrationConfig.endpoints c) ++ "/health")%string
      JsUndefined None s in
  let run := testIntegration env id s in
  let stored status :=
    JsMap.set id
      (PartialConfig.merge c (PartialConfig.ofStatus status) (clock env (ticks (snd call))))
      (integrations (this s)) in
  rateLimiters (this (snd run)) = rateLimiters (this (snd call))
  /\ match fst call with
     | Returned response =>
         fst run = Returned (Response.ok response)
         /\ integrations (this (snd run))
            = stored (if Response.ok response then Status.active else Status.error)
         /\ events (this (snd run)) = events (this (snd call))
     | Threw err =>
         fst run = Returned false
         /\ integrations (this (snd run)) = stored Status.error
         /\ events (this (snd run))
            = pushEvent (eventAt env (S (ticks (snd call))) (testFailureEntry id err))
                (events (this (snd call)))
     end.
Proof.
  intros Hc. cbv zeta.
  pose proof (makeApiCall_frame env id "GET"
                (Endpoints.base (IntegrationConfig.endpoints c) ++ "/health")%string
                JsUndefined None s) as Hframe.
  cbv zeta in Hframe. destruct Hframe as (Hint & _ & _).
  unfold testIntegration. rewrite read_bind, Hc, try_catch_bind.
  destruct (makeApiCall env id "GET" _ JsUndefined None s) as [[r|err] s1].
  - simpl in Hint. rewrite <- Hint in Hc. cbn [fst snd].
    destruct (Response.ok r);
      (erewrite try_catch_returned;
       [|erewrite bind_returned; [reflexivity|apply updateIntegration_run; exact Hc]]);
      cbn [fst snd this setIntegrations integrations events rateLimiters];
      rewrite Hint; auto.
  - simpl in Hint. rewrite <- Hint in Hc. cbn [fst snd].
    erewrite bind_returned by (apply updateIntegration_run; exact Hc).
    erewrite bind_returned by (apply (logEvent_run env (testFailureEntry id err))).
    unfold ret.
    cbn [fst snd this setIntegrations integrations events logged setEvents ticks rateLimiters].
    rewrite Hint. auto.
Qed.


(** C9. Rate-limit rejection in the Dispatcher: when a limiter is bound to
    a registered integration and its check at the current instant returns
    [false], [makeApiCall] throws [Error("Rate limit exceeded")], issues no
    network request (the [io] trace is the same) and leaves the event log
    and the registry as they were. *)
Theorem rate_limit_rejection (env : Env) (id method endpoint : string) (data : JsValue)
  (headers : option (JsMap.t string)) (s : State) (c : IntegrationConfig.t)
  (rl : RateLimiter.t) :
  JsMap.get id (integrations (this s)) = Some c ->
  JsMap.get id (rateLimiters (this s)) = Some rl ->
  fst (RateLimiter.canMakeRequest (clock env (ticks s)) rl) = false ->
  let run := makeApiCall env id method endpoint data headers s in
  fst run = Threw rateLimitExceeded
  /\ message rateLimitExceeded = "Rate limit exceeded"
  /\ io (snd run) = io s
  /\ events (this (snd run)) = events (this s)
  /\ integrations (this (snd run)) = integrations (this s).
Proof.
  intros Hc Hrl Hrej run. subst run.
  rewrite (makeApiCall_rejected env id method endpoint data headers s c rl Hc Hrl Hrej).
  repeat split.
Qed.

Lemma rate_limit_rejection_witness :
  let env := Scenario.answering 200 in
  let s := Scenario.registered env (Scenario.config "X" true (Some Scenario.limits_1_5_10)) in
  let run := makeApiCall env "X" "POST" "https://api.example.com/items" JsUndefined None s in
  fst run = Threw rateLimitExceeded
  /\ io (snd run) = io s
  /\ events (this (snd run)) = events (this s).
Proof.
  intros env s run.
  destruct (rate_limit_rejection env "X" "POST" "https://api.example.com/items"
              JsUndefined None s
              (PartialConfig.merge
                 (IntegrationConfig.stamped
                    (Scenario.config "X" true (Some Scenario.limits_1_5_10))
                    (clock env 0) (clock env 1))
                 (PartialConfig.ofStatus Status.active) (clock env 9))
              {| RateLimiter.requests := [clock env 2];
                 RateLimiter.limits := Scenario.limits_1_5_10 |}
              eq_refl eq_refl eq_refl) as (H1 & _ & H3 & H4 & _).
  split; [exact H1|]. split; [exact H3|exact H4].
Defined.

(** C7, as stated, fails: [syncData] with an id that is not in the registry
    returns normally instead of throwing. *)
Lemma sync_unknown_id_returns_normally :
  JsMap.get "ghost" (integrations (this initialState)) = None
  /\ ~ (exists e, fst (syncData (Scenario.answering 200) "ghost" SyncDirection.pull initialState)
                  = Threw e).
Proof.
  split; [reflexivity|]. intros [e H]. discriminate H.
Qed.

(** C7 (amended). With an [integrationId] that is not in the registry,
    [updateIntegration], [testIntegration] and [makeApiCall] throw
    [Error("Integration <id> not found")] to their caller and leave the state
    as it was, while [syncData] returns normally without any effect and
    [getIntegration] returns [undefined]. *)
Theorem unknown_integration_id (env : Env) (id : string) (s : State) :
  JsMap.get id (integrations (this s)) = None ->
  (forall updates, updateIntegration env id updates s = (Threw (notFound id), s))
  /\ testIntegration env id s = (Threw (notFound id), s)
  /\ (forall method endpoint data headers,
        makeApiCall env id method endpoint data headers s = (Threw (notFound id), s))
  /\ message (notFound id) = ("Integration " ++ id ++ " not found")%string
  /\ (forall direction, syncData env id direction s = (Returned tt, s))
  /\ getIntegration id s = (Returned None, s).
Proof.
  intros H. repeat split.
  - intros updates. apply updateIntegration_unknown. exact H.
  - apply testIntegration_unknown. exact H.
  - intros. apply makeApiCall_unknown. exact H.
  - intros direction. apply syncData_unknown. exact H.
  - unfold getIntegration, read. rewrite H. reflexivity.
Qed.

Lemma unknown_integration_id_witness :
  makeApiCall (Scenario.answering 200) "ghost" "GET" "https://api.example.com/health"
    JsUndefined None initialState
  = (Threw (Error "Integration ghost not found"), initialState)
  /\ syncData (Scenario.answering 200) "ghost" SyncDirection.pull initialState
     = (Returned tt, initialState).
Proof.
  destruct (unknown_integration_id (Scenario.answering 200) "ghost" initialState eq_refl)
    as (_ & _ & H3 & _ & H5 & _).
  split; [apply H3|apply H5].
Defined.



(** C10. Stale limiter on re-registration: registering, under an id that is
    already registered and has a bound limiter, a config that declares no
    [rateLimits] returns the id and replaces the stored config (every field
    is the new config's, except the status and [updatedAt] that the
    connection test writes, and the fresh [createdAt]); the limiter map
    still holds under that id the old limiter, as the check of the
    connection test left it, with the old limits; and a later Dispatcher
    call that this limiter rejects throws [Error("Rate limit exceeded")]
    without issuing a request. *)
Theorem stale_limiter_on_reregistration (env : Env) (config old : IntegrationConfig.t)
  (s : State) (rl : RateLimiter.t) :
  let id := IntegrationConfig.id config in
  JsMap.get id (integrations (this s)) = Some old ->
  JsMap.get id (rateLimiters (this s)) = Some rl ->
  Settings.rateLimits (IntegrationConfig.settings config) = None ->
  let run := registerIntegration env config s in
  let s' := snd run in
  let rl' := snd (RateLimiter.canMakeRequest (clock env (2 + ticks s)) rl) in
  fst run = Returned id
  /\ (exists stored,
        JsMap.get id (integrations (this s')) = Some stored
        /\ IntegrationConfig.id stored = id
        /\ IntegrationConfig.name stored = IntegrationConfig.name config
        /\ IntegrationConfig.category stored = IntegrationConfig.category config
        /\ IntegrationConfig.provider stored = IntegrationConfig.provider config
        /\ IntegrationConfig.credentials stored = IntegrationConfig.credentials config
        /\ IntegrationConfig.settings stored = IntegrationConfig.settings config
        /\ IntegrationConfig.endpoints stored = IntegrationConfig.endpoints config
        /\ IntegrationConfig.createdAt stored = clock env (ticks s))
  /\ JsMap.get id (rateLimiters (this s')) = Some rl'
  /\ RateLimiter.limits rl' = RateLimiter.limits rl
  /\ (forall method endpoint data headers,
        fst (RateLimiter.canMakeRequest (clock env (ticks s')) rl') = false ->
        fst (makeApiCall env id method endpoint data headers s') = Threw rateLimitExceeded
        /\ io (snd (makeApiCall env id method endpoint data headers s')) = io s').
Proof.
  intros id _ Hrl Hnone run s' rl'.
  set (c := IntegrationConfig.stamped config (clock env (ticks s)) (clock env (S (ticks s)))).
  set (s2 := {| this := setIntegrations (JsMap.set id c) (this s);
                ticks := 2 + ticks s; io := io s |}).
  assert (Hrun : run = bind (testIntegration env id) (fun _ => ret id) s2).
  { subst run. unfold registerIntegration.
    rewrite !Date_now_bind. cbv zeta. rewrite mutate_bind.
    cbn [IntegrationConfig.settings IntegrationConfig.stamped IntegrationConfig.id].
    rewrite Hnone, ret_bind. reflexivity. }
  assert (Hc2 : JsMap.get id (integrations (this s2)) = Some c)
    by apply JsMapFacts.get_set_same.
  assert (Hrl2 : JsMap.get id (rateLimiters (this s2)) = Some rl) by exact Hrl.
  pose proof (testIntegration_registered env id s2 c Hc2) as Ht. cbv zeta in Ht.
  destruct Ht as [Hlim Ht].
  rewrite (makeApiCall_limiter env id _ _ _ _ s2 c rl Hc2 Hrl2) in Hlim.
  assert (Hres : exists b status u,
            testIntegration env id s2 = (Returned b, snd (testIntegration env id s2))
            /\ integrations (this (snd (testIntegration env id s2)))
               = JsMap.set id (PartialConfig.merge c (PartialConfig.ofStatus status) u)
                   (integrations (this s2))).
  { destruct (testIntegration env id s2) as [res st] eqn:Etest. cbn [fst snd] in *.
    destruct (fst (makeApiCall env id "GET" _ JsUndefined None s2)) as [r|err];
      destruct Ht as (H1 & H2 & _); subst res; eauto. }
  destruct Hres as (b & status & u & Hb & Hints).
  assert (Hs' : s' = snd (testIntegration env id s2)).
  { subst s'. rewrite Hrun. rewrite (bind_returned _ _ _ _ _ Hb). reflexivity. }
  assert (Hget : JsMap.get id (integrations (this s'))
                 = Some (PartialConfig.merge c (PartialConfig.ofStatus status) u)).
  { rewrite Hs', Hints. apply JsMapFacts.get_set_same. }
  assert (Hgetrl : JsMap.get id (rateLimiters (this s')) = Some rl').
  { rewrite Hs', Hlim. apply JsMapFacts.get_set_same. }
  split; [|split; [|split; [|split]]].
  - rewrite Hrun. rewrite (bind_returned _ _ _ _ _ Hb). reflexivity.
  - eexists. split; [exact Hget|]. repeat split.
  - exact Hgetrl.
  - apply RateLimiterFacts.canMakeRequest_limits.
  - intros method endpoint data headers Hrej.
    rewrite (makeApiCall_rejected env id method endpoint data headers s' _ rl'
               Hget Hgetrl Hrej).
    split; reflexivity.
Qed.

Lemma stale_limiter_on_reregistration_witness :
  let env := Scenario.answering 200 in
  let s := Scenario.registered env (Scenario.config "X" true (Some Scenario.limits_1_5_10)) in
  let s' := snd (registerIntegration env (Scenario.config "X" true None) s) in
  option_map (fun c => Settings.rateLimits (IntegrationConfig.settings c))
    (JsMap.get "X" (integrations (this s'))) = Some None
  /\ option_map RateLimiter.limits (JsMap.get "X" (rateLimiters (this s')))
     = Some Scenario.limits_1_5_10
  /\ fst (makeApiCall env "X" "GET" "https://api.example.com/items" JsUndefined None s')
     = Threw rateLimitExceeded.
Proof.
  intros env s s'.
  pose proof (stale_limiter_on_reregistration env (Scenario.config "X" true None)
                (PartialConfig.merge
                   (IntegrationConfig.stamped
                      (Scenario.config "X" true (Some Scenario.limits_1_5_10))
                      (clock env 0) (clock env 1))
                   (PartialConfig.ofStatus Status.active) (clock env 9))
                s
                {| RateLimiter.requests := [clock env 2];
                   RateLimiter.limits := Scenario.limits_1_5_10 |}
                eq_refl eq_refl eq_refl) as H.
  cbv zeta in H. destruct H as (_ & _ & _ & _ & H).
  split; [reflexivity|]. split; [reflexivity|].
  apply (H "GET" "https://api.example.com/items" JsUndefined None). reflexivity.
Defined.

(* ================================================================== *)
(** ** Webhook Router *)
(* ================================================================== *)

Section Webhooks.
Variable env : Env.




End Webhooks.


(** Scenario 4 of the specification: a handler that throws and one that
    succeeds, both registered for the same event; the log gains one [failed]
    and one [success] event and nothing escapes the dispatch. *)
Example throwing_and_succeeding_handler :
  let run :=
    handleWebhook (Scenario.answering 200) "Z" "invoice.paid" JsNull Scenario.twoHandlers in
  fst run = Returned tt
  /\ map IntegrationEvent.status (events (this (snd run)))
     = [EventStatus.failed; EventStatus.success]
  /\ map IntegrationEvent.error (events (this (snd run)))
     = [Some "handler failed"; None].
Proof. cbv zeta. repeat split; vm_compute; reflexivity. Qed.

(* ================================================================== *)
(** ** Sync Orchestrator *)
(* ================================================================== *)

Section Sync.
Variable env : Env.

Lemma try_catch_Date_now {A : Type} (k : Z -> M A) (h : JsError -> M A) s :
  try_catch (bind (Date_now env) k) h s
  = try_catch (k (clock env (ticks s))) h (advance s).
Proof. reflexivity. Qed.

Lemma pullData_run id s :
  pullData env id s
  = (providerPull env (ticks s) id,
     {| this := this s; ticks := S (ticks s);
        io := io s ++ [ConsoleLog ("Pulling data from integration " ++ id)%string] |}).
Proof. reflexivity. Qed.

Lemma pushData_run id s :
  pushData env id s
  = (providerPush env (ticks s) id,
     {| this := this s; ticks := S (ticks s);
        io := io s ++ [ConsoleLog ("Pushing data to integration " ++ id)%string] |}).
Proof. reflexivity. Qed.

End Sync.

(** C6. Sync error absorption and atomicity: for a registered integration
    with [syncEnabled] true, when a step that runs (pull or push) throws
    [err], [syncData] returns normally, leaves the registry as it was (so
    [settings.lastSync] is unchanged) and pushes to the log exactly one
    event, [sync]/[outbound]/[failed] with the message of [err]; when every
    step that runs returns, [syncData] returns normally, [settings.lastSync]
    is the instant read after the steps, and a [sync]/[outbound]/[success]
    event is pushed.  The steps end in one of these two ways, so [lastSync]
    changes only on overall success. *)
Theorem sync_error_absorption (env : Env) (id : string) (direction : SyncDirection.t)
  (s : State) (c : IntegrationConfig.t) :
  JsMap.get id (integrations (this s)) = Some c ->
  Settings.syncEnabled (IntegrationConfig.settings c) = true ->
  let run := syncData env id direction s in
  (forall err,
     stepThrows env (ticks s) id direction err ->
     fst run = Returned tt
     /\ integrations (this (snd run)) = integrations (this s)
     /\ option_map (fun c' => Settings.lastSync (IntegrationConfig.settings c'))
          (JsMap.get id (integrations (this (snd run))))
        = Some (Settings.lastSync (IntegrationConfig.settings c))
     /\ exists e,
          events (this (snd run)) = pushEvent e (events (this s))
          /\ IntegrationEvent.integrationId e = id
          /\ IntegrationEvent.type e = EventType.sync
          /\ IntegrationEvent.direction e = Direction.outbound
          /\ IntegrationEvent.status e = EventStatus.failed
          /\ IntegrationEvent.error e = Some (message err))
  /\ (stepsReturn env (ticks s) id direction ->
      let now := clock env (stepCount direction + ticks s) in
      fst run = Returned tt
      /\ option_map (fun c' => Settings.lastSync (IntegrationConfig.settings c'))
           (JsMap.get id (integrations (this (snd run))))
         = Some (Some now)
      /\ events (this (snd run))
         = pushEvent
             (eventAt env (2 + stepCount direction + ticks s)
                (syncEntry id direction (Returned tt)))
             (events (this s))).
Proof.
  intros Hc Hen. cbv zeta.
  unfold syncData. rewrite read_bind, Hc, Hen. cbn [negb].
  split.
  - intros err Hthrow.
    destruct direction; cbn [runsPull runsPush stepThrows] in *.
    + rewrite try_catch_bind, pullData_run, Hthrow.
      cbn. rewrite Hc. repeat split. eexists. split; [reflexivity|repeat split].
    + rewrite try_catch_bind. cbv beta delta [ret] iota.
      rewrite try_catch_bind, pushData_run, Hthrow.
      cbn. rewrite Hc. repeat split. eexists. split; [reflexivity|repeat split].
    + destruct Hthrow as [Hpull|[Hpull Hpush]].
      * rewrite try_catch_bind, pullData_run, Hpull.
        cbn. rewrite Hc. repeat split. eexists. split; [reflexivity|repeat split].
      * rewrite try_catch_bind, pullData_run, Hpull.
        rewrite try_catch_bind, pushData_run. cbn [ticks]. rewrite Hpush.
        cbn. rewrite Hc. repeat split. eexists. split; [reflexivity|repeat split].
  - intros Hret.
    destruct direction; cbn [runsPull runsPush stepsReturn stepCount] in *.
    + rewrite try_catch_bind, pullData_run, Hret.
      rewrite try_catch_bind. cbv beta delta [ret] iota.
      rewrite try_catch_Date_now.
      erewrite try_catch_returned;
        [|erewrite bind_returned;
           [exact (logEvent_run env (syncEntry id SyncDirection.pull (Returned tt)) _)
           |apply updateIntegration_run; exact Hc]].
      cbn. rewrite JsMapFacts.get_set_same. repeat split.
    + rewrite try_catch_bind. cbv beta delta [ret] iota.
      rewrite try_catch_bind, pushData_run, Hret.
      rewrite try_catch_Date_now.
      erewrite try_catch_returned;
        [|erewrite bind_returned;
           [exact (logEvent_run env (syncEntry id SyncDirection.push (Returned tt)) _)
           |apply updateIntegration_run; exact Hc]].
      cbn. rewrite JsMapFacts.get_set_same. repeat split.
    + destruct Hret as [Hpull Hpush].
      rewrite try_catch_bind, pullData_run, Hpull.
      rewrite try_catch_bind, pushData_run. cbn [ticks]. rewrite Hpush.
      rewrite try_catch_Date_now.
      erewrite try_catch_returned;
        [|erewrite bind_returned;
           [exact (logEvent_run env (syncEntry id SyncDirection.bidirectional (Returned tt)) _)
           |apply updateIntegration_run; exact Hc]].
      cbn. rewrite JsMapFacts.get_set_same. repeat split.
Qed.

Lemma sync_error_absorption_witness :
  let env := Scenario.pullFails in
  let s := Scenario.registered env (Scenario.config "W" true None) in
  let run := syncData env "W" SyncDirection.pull s in
  fst run = Returned tt
  /\ option_map (fun c' => Settings.lastSync (IntegrationConfig.settings c'))
       (JsMap.get "W" (integrations (this (snd run)))) = Some None
  /\ length (events (this (snd run))) = S (length (events (this s))).
Proof.
  intros env s run.
  destruct (sync_error_absorption env "W" SyncDirection.pull s
              (PartialConfig.merge
                 (IntegrationConfig.stamped (Scenario.config "W" true None)
                    (clock env 0) (clock env 1))
                 (PartialConfig.ofStatus Status.active) (clock env 8))
              ltac:(vm_compute; reflexivity) eq_refl) as [Hfail _].
  destruct (Hfail (Error "pull failed") eq_refl) as (H1 & _ & H3 & _).
  split; [exact H1|]. split; [exact H3|]. vm_compute. reflexivity.
Defined.

(* ================================================================== *)
(** ** Metrics *)
(* ================================================================== *)



(** Scenario 3 of the specification: after a health check answered with
    HTTP 500, the error rate of the last hour is 100. *)
Example metrics_after_http_500 :
  let env := Scenario.answering 500 in
  let s := Scenario.registered env (Scenario.config "Y" true None) in
  option_map Metrics.errorRate
    (match fst (getMetrics env "Y" Timeframe.hour s) with
     | Returned m => Some m
     | Threw _ => None
     end) = Some 100%float.
Proof. vm_compute. reflexivity. Qed.

(* ================================================================== *)
(** * Further properties *)
(* ================================================================== *)

(** ** Rate limiter: the log *)

Module RateLimiterLog.
Import RateLimiter.

Lemma canMakeRequest_bound now rl :
  (N.of_nat (length (requests rl)) <= requestsPerDay (limits rl))%N ->
  (N.of_nat (length (requests (snd (canMakeRequest now rl))))
   <= requestsPerDay (limits (snd (canMakeRequest now rl))))%N.
Proof.
  intros H. unfold canMakeRequest.
  pose proof (filter_length_le (fun time => time >? now - 86400000) (requests rl)) as Hf.
  destruct (_ || _) eqn:E; cbn [snd requests limits].
  - lia.
  - apply orb_false_elim in E. destruct E as [_ E]. apply N.leb_gt in E.
    rewrite length_app. simpl. lia.
Qed.

Lemma canMakeRequest_from now rl t :
  In t (requests (snd (canMakeRequest now rl))) -> In t (requests rl) \/ t = now.
Proof.
  rewrite RateLimiterFacts.canMakeRequest_requests, in_app_iff, filter_In.
  intros [[H _]|H]; [left; exact H|].
  destruct (fst (canMakeRequest now rl)); simpl in H; [|contradiction].
  destruct H as [H|[]]. right. symmetry. exact H.
Qed.

Lemma calls_bound times : forall rl,
  (N.of_nat (length (requests rl)) <= requestsPerDay (limits rl))%N ->
  (N.of_nat (length (requests (snd (calls times rl))))
   <= requestsPerDay (limits (snd (calls times rl))))%N.
Proof.
  induction times as [|now times IH]; intros rl H; simpl; [exact H|].
  pose proof (canMakeRequest_bound now rl H) as H'.
  destruct (canMakeRequest now rl) as [r rl']. specialize (IH rl' H').
  destruct (calls times rl') as [rs rl'']. exact IH.
Qed.

Lemma calls_from times : forall rl t,
  In t (requests (snd (calls times rl))) -> In t (requests rl) \/ In t times.
Proof.
  induction times as [|now times IH]; intros rl t; simpl; [auto|].
  pose proof (canMakeRequest_from now rl t) as Hc.
  destruct (canMakeRequest now rl) as [r rl']. specialize (IH rl' t).
  destruct (calls times rl') as [rs rl'']. simpl in *.
  intros H. destruct (IH H) as [H1|H1]; [|auto].
  destruct (Hc H1); auto.
Qed.

End RateLimiterLog.

(** X1. The log of a limiter is bounded by its daily limit: whatever the
    instants at which [canMakeRequest] is called on a new limiter (in any
    order), the array of retained timestamps never holds more than
    [requestsPerDay] entries, and it holds only instants of those calls. *)
Theorem limiter_log_bounded (lim : RateLimits) (times : list Z) :
  let rl := snd (RateLimiter.calls times (RateLimiter.new lim)) in
  (N.of_nat (length (RateLimiter.requests rl)) <= requestsPerDay lim)%N
  /\ RateLimiter.limits rl = lim
  /\ (forall t, In t (RateLimiter.requests rl) -> In t times).
Proof.
  cbv zeta.
  pose proof (RateLimiterLog.calls_bound times (RateLimiter.new lim)) as H.
  rewrite RateLimiterFacts.calls_limits in *. simpl in H.
  split; [apply H; lia|]. split; [reflexivity|].
  intros t Ht. destruct (RateLimiterLog.calls_from times _ t Ht) as [[]|H']. exact H'.
Qed.

Lemma canMakeRequest_quiet (now : Z) (rl : RateLimiter.t) :
  (1 <= requestsPerSecond (RateLimiter.limits rl))%N ->
  (1 <= requestsPerHour (RateLimiter.limits rl))%N ->
  (1 <= requestsPerDay (RateLimiter.limits rl))%N ->
  Forall (fun time => time <= now - 86400000) (RateLimiter.requests rl) ->
  RateLimiter.canMakeRequest now rl
  = (true, {| RateLimiter.requests := [now]; RateLimiter.limits := RateLimiter.limits rl |}).
Proof.
  intros Hs Hh Hd Hold. unfold RateLimiter.canMakeRequest.
  assert (Hnil : filter (fun time => time >? now - 86400000) (RateLimiter.requests rl) = []).
  { induction Hold as [|t l Ht _ IH]; simpl; [reflexivity|].
    destruct (t >? now - 86400000) eqn:E; [|exact IH].
    apply Z.gtb_lt in E. lia. }
  rewrite Hnil. simpl.
  destruct (_ || _) eqn:E; [|reflexivity].
  apply orb_true_iff in E. destruct E as [E|E]; [apply orb_true_iff in E; destruct E as [E|E]|];
    apply N.leb_le in E; lia.
Qed.

(** X2. Recovery after a quiet day: when every limit is at least one and
    every retained timestamp is 24 hours old or older, [canMakeRequest]
    admits, and the log it leaves holds the new timestamp only. *)
Theorem limiter_admits_after_quiet_day (now : Z) (rl : RateLimiter.t) :
  (1 <= requestsPerSecond (RateLimiter.limits rl))%N ->
  (1 <= requestsPerHour (RateLimiter.limits rl))%N ->
  (1 <= requestsPerDay (RateLimiter.limits rl))%N ->
  Forall (fun time => time <= now - 86400000) (RateLimiter.requests rl) ->
  RateLimiter.canMakeRequest now rl
  = (true, {| RateLimiter.requests := [now]; RateLimiter.limits := RateLimiter.limits rl |}).
Proof. exact (canMakeRequest_quiet now rl). Qed.

Lemma limiter_admits_after_quiet_day_witness :
  RateLimiter.canMakeRequest 90000000
    {| RateLimiter.requests := [1000; 2000]; RateLimiter.limits := Scenario.limits_1_5_10 |}
  = (true, {| RateLimiter.requests := [90000000];
              RateLimiter.limits := Scenario.limits_1_5_10 |}).
Proof.
  apply (limiter_admits_after_quiet_day 90000000
           {| RateLimiter.requests := [1000; 2000];
              RateLimiter.limits := Scenario.limits_1_5_10 |}).
  - discriminate.
  - discriminate.
  - discriminate.
  - repeat constructor; discriminate.
Defined.

(** X3. A limit of zero blocks the integration: when one of the three
    limits is [0], no call of [canMakeRequest] on a new limiter ever
    returns [true], and the log stays empty. *)
Theorem limiter_with_zero_limit_never_admits (lim : RateLimits) (times : list Z) :
  requestsPerSecond lim = 0%N \/ requestsPerHour lim = 0%N \/ requestsPerDay lim = 0%N ->
  let run := RateLimiter.calls times (RateLimiter.new lim) in
  Forall (fun r => snd r = false) (fst run)
  /\ RateLimiter.requests (snd run) = [].
Proof.
  intros Hz. cbv zeta.
  assert (Hstep : forall now,
            RateLimiter.canMakeRequest now (RateLimiter.new lim) = (false, RateLimiter.new lim)).
  { intros now. unfold RateLimiter.canMakeRequest. simpl.
    destruct Hz as [E|[E|E]]; rewrite E; simpl; rewrite ?orb_true_r; reflexivity. }
  induction times as [|now times IH]; simpl.
  - split; [constructor|reflexivity].
  - rewrite Hstep. destruct (RateLimiter.calls times (RateLimiter.new lim)) as [rs rl'].
    simpl in *. destruct IH as [IH1 IH2]. split; [constructor; [reflexivity|exact IH1]|exact IH2].
Qed.

Lemma limiter_with_zero_limit_never_admits_witness :
  map snd (fst (RateLimiter.calls [0; 5000; 100000000]
                  (RateLimiter.new {| requestsPerSecond := 10; requestsPerHour := 0;
                                      requestsPerDay := 100 |})))
  = [false; false; false]
  /\ Forall (fun r => snd r = false)
       (fst (RateLimiter.calls [0; 5000; 100000000]
               (RateLimiter.new {| requestsPerSecond := 10; requestsPerHour := 0;
                                   requestsPerDay := 100 |}))).
Proof.
  split; [reflexivity|].
  apply (limiter_with_zero_limit_never_admits
           {| requestsPerSecond := 10; requestsPerHour := 0; requestsPerDay := 100 |}
           [0; 5000; 100000000]).
  right. left. reflexivity.
Defined.

(** ** Reading the event log *)

Section NewestFirst.

Lemma insertNewestFirst_perm e l : Permutation (e :: l) (insertNewestFirst e l).
Proof.
  induction l as [|x l IH]; simpl; [reflexivity|].
  destruct (_ <=? 0); [reflexivity|].
  rewrite perm_swap. apply perm_skip. exact IH.
Qed.

Lemma sortNewestFirst_perm l : Permutation l (sortNewestFirst l).
Proof.
  induction l as [|e l IH]; simpl; [reflexivity|].
  rewrite <- insertNewestFirst_perm. apply perm_skip. exact IH.
Qed.

Lemma insertNewestFirst_sorted e l :
  StronglySorted (fun a b : IntegrationEvent.t =>
       IntegrationEvent.timestamp b <= IntegrationEvent.timestamp a) l ->
  StronglySorted (fun a b : IntegrationEvent.t =>
       IntegrationEvent.timestamp b <= IntegrationEvent.timestamp a) (insertNewestFirst e l).
Proof.
  intros Hs. induction Hs as [|x l Hs IH Hx]; simpl.
  - repeat constructor.
  - destruct (_ <=? 0) eqn:E.
    + apply Z.leb_le in E. constructor; [constructor; assumption|].
      constructor; [cbv beta; lia|].
      eapply Forall_impl; [|exact Hx]. cbv beta. intros; lia.
    + apply Z.leb_gt in E. constructor; [exact IH|].
      rewrite <- insertNewestFirst_perm. constructor; [cbv beta; lia|exact Hx].
Qed.

Lemma sortNewestFirst_sorted l :
  StronglySorted (fun a b : IntegrationEvent.t =>
       IntegrationEvent.timestamp b <= IntegrationEvent.timestamp a) (sortNewestFirst l).
Proof.
  induction l as [|e l IH]; simpl; [constructor|].
  apply insertNewestFirst_sorted. exact IH.
Qed.

Lemma sorted_app_split (l1 l2 : list IntegrationEvent.t) :
  StronglySorted (fun a b : IntegrationEvent.t =>
       IntegrationEvent.timestamp b <= IntegrationEvent.timestamp a) (l1 ++ l2) ->
  StronglySorted (fun a b : IntegrationEvent.t =>
       IntegrationEvent.timestamp b <= IntegrationEvent.timestamp a) l1
  /\ Forall (fun r =>
              Forall (fun x => IntegrationEvent.timestamp r <= IntegrationEvent.timestamp x) l1)
       l2.
Proof.
  induction l1 as [|a l1 IH]; simpl; intros H.
  - split; [constructor|]. apply Forall_forall. intros; constructor.
  - inversion H as [|? ? Hs Ha]; subst. destruct (IH Hs) as [IH1 IH2].
    apply Forall_app in Ha. destruct Ha as [Ha1 Ha2].
    split; [constructor; assumption|].
    rewrite Forall_forall in *. intros r Hr. constructor; [apply Ha2, Hr|apply IH2, Hr].
Qed.

(** X4. [getEvents] returns the newest events first and only reads: for a
    limit that is not negative, the result holds at most [limit] events, all
    the wanted ones when there are no more than [limit]; it is ordered by
    decreasing timestamp; together with the events it leaves out it is a
    rearrangement of the logged events of the integration (of the whole log
    when no integration is named), and no event left out is newer than a
    returned one.  The state is the same after the call. *)
Theorem getEvents_newest_first (integrationId : option string) (limit : Z) (s : State) :
  0 <= limit ->
  let wanted :=
    match truthyString integrationId with
    | Some id =>
        filter (fun e => (IntegrationEvent.integrationId e =? id)%string) (events (this s))
    | None => events (this s)
    end in
  exists result rest,
    getEvents integrationId limit s = (Returned result, s)
    /\ Z.of_nat (length result) = Z.min limit (Z.of_nat (length wanted))
    /\ StronglySorted
         (fun a b => IntegrationEvent.timestamp b <= IntegrationEvent.timestamp a) result
    /\ Permutation (result ++ rest) wanted
    /\ Forall (fun r =>
                 Forall (fun x => IntegrationEvent.timestamp r <= IntegrationEvent.timestamp x)
                   result) rest.
Proof.
  intros Hl wanted.
  set (k := Z.to_nat (Z.min limit (Z.of_nat (length (sortNewestFirst wanted))))).
  exists (firstn k (sortNewestFirst wanted)), (skipn k (sortNewestFirst wanted)).
  assert (Hlen : length (sortNewestFirst wanted) = length wanted)
    by (symmetry; apply Permutation_length, sortNewestFirst_perm).
  pose proof (sortNewestFirst_sorted wanted) as Hs.
  rewrite <- (firstn_skipn k (sortNewestFirst wanted)) in Hs.
  apply sorted_app_split in Hs. destruct Hs as [Hs1 Hs2].
  split; [|split; [|split; [|split]]].
  - unfold getEvents, read. fold wanted. unfold slice_to.
    destruct (limit <? 0) eqn:E; [apply Z.ltb_lt in E; lia|]. reflexivity.
  - rewrite length_firstn. subst k. rewrite Hlen. lia.
  - exact Hs1.
  - rewrite firstn_skipn. symmetry. apply sortNewestFirst_perm.
  - exact Hs2.
Qed.

End NewestFirst.

Lemma getEvents_newest_first_witness :
  let s := Scenario.registered Scenario.unreachable (Scenario.config "Y" true None) in
  exists result rest,
    getEvents (Some "Y") 1 s = (Returned result, s)
    /\ Z.of_nat (length result) = 1
    /\ Permutation (result ++ rest) (events (this s)).
Proof.
  intros s.
  destruct (getEvents_newest_first (Some "Y") 1 s ltac:(discriminate))
    as (result & rest & H1 & H2 & _ & H4 & _).
  exists result, rest. split; [exact H1|]. split; [exact H2|exact H4].
Defined.

(** ** The Dispatcher: a call that is sent *)

Section Sent.
Variable env : Env.

Lemma makeApiCall_sent id method endpoint data headers s c :
  JsMap.get id (integrations (this s)) = Some c ->
  passesLimiter env id s ->
  let n := ticksAfterCheck id s in
  let req := requestOf c method endpoint data headers in
  let outcome := network env (S n) req in
  makeApiCall env id method endpoint data headers s
  = (outcome,
     {| this :=
          {| integrations := integrations (this s);
             webhookHandlers := webhookHandlers (this s);
             events :=
               pushEvent
                 (eventAt env (3 + n)
                    (apiCallEntry id method endpoint data outcome
                       (clock env (S (S n)) - clock env n)))
                 (events (this s));
             rateLimiters := limitersAfterCheck env id s |};
        ticks := 6 + n;
        io := io s ++ [Fetch req] |}).
Proof.
  intros Hc Hpass. cbv zeta.
  unfold passesLimiter in Hpass. unfold ticksAfterCheck, limitersAfterCheck.
  unfold makeApiCall, limiterCanMakeRequest, logEvent, bind, read, try_catch, fetch,
    Date_now, Math_random36, mutate, ret, throw.
  rewrite Hc.
  destruct (JsMap.get id (rateLimiters (this s))) as [rl|]; cbn.
  - specialize (Hpass rl eq_refl).
    destruct (RateLimiter.canMakeRequest (clock env (ticks s)) rl) as [allowed rl'].
    cbn in Hpass. subst allowed. cbn.
    fold (requestOf c method endpoint data headers).
    destruct (network env _ _) as [r|err]; reflexivity.
  - fold (requestOf c method endpoint data headers).
    destruct (network env _ _) as [r|err]; reflexivity.
Qed.

End Sent.

(** X5. A call that is sent returns the server's answer, whatever its
    status: for a registered integration that its limiter (if any) lets
    through, when the network answers with a response, [makeApiCall]
    returns that response (a non-2xx status is not thrown), issues exactly
    one request, to [endpoint] with [method], and pushes exactly one event:
    [api_call]/[outbound], [success] without error for a 2xx status and
    [failed] with error ["HTTP <status>"] otherwise, with the status and the
    elapsed time in its metadata. *)
Theorem makeApiCall_response (env : Env) (id method endpoint : string) (data : JsValue)
  (headers : option (JsMap.t string)) (s : State) (c : IntegrationConfig.t)
  (response : Response.t) :
  JsMap.get id (integrations (this s)) = Some c ->
  passesLimiter env id s ->
  let n := ticksAfterCheck id s in
  network env (S n) (requestOf c method endpoint data headers) = Returned response ->
  let run := makeApiCall env id method endpoint data headers s in
  fst run = Returned response
  /\ (exists req, io (snd run) = io s ++ [Fetch req]
                  /\ Request.url req = endpoint /\ Request.method req = method)
  /\ (exists e,
        events (this (snd run)) = pushEvent e (events (this s))
        /\ IntegrationEvent.integrationId e = id
        /\ IntegrationEvent.type e = EventType.api_call
        /\ IntegrationEvent.direction e = Direction.outbound
        /\ IntegrationEvent.status e
           = (if Response.ok response then EventStatus.success else EventStatus.failed)
        /\ IntegrationEvent.error e
           = (if Response.ok response then None
              else Some ("HTTP " ++ decimal (Response.status response))%string)
        /\ IntegrationEvent.metadata e
           = Some {| Metadata.endpoint := Some endpoint;
                     Metadata.httpStatus := Some (Response.status response);
                     Metadata.responseTime :=
                       Some (clock env (S (S n)) - clock env n) |})
  /\ integrations (this (snd run)) = integrations (this s).
Proof.
  intros Hc Hpass n Hnet run. subst run.
  rewrite (makeApiCall_sent env id method endpoint data headers s c Hc Hpass).
  cbv zeta. fold n. rewrite Hnet. cbn [fst snd this events io integrations].
  split; [reflexivity|]. split; [eexists; repeat split|].
  split; [|reflexivity]. eexists. split; [reflexivity|]. repeat split.
Qed.

Lemma makeApiCall_response_witness :
  let env := Scenario.answering 404 in
  let s := Scenario.registered env (Scenario.config "Y" true None) in
  let run := makeApiCall env "Y" "GET" "https://api.example.com/items" JsUndefined None s in
  fst run = Returned {| Response.status := 404 |}
  /\ length (io (snd run)) = S (length (io s)).
Proof.
  intros env s run.
  destruct (makeApiCall_response env "Y" "GET" "https://api.example.com/items"
              JsUndefined None s
              (PartialConfig.merge
                 (IntegrationConfig.stamped (Scenario.config "Y" true None)
                    (clock env 0) (clock env 1))
                 (PartialConfig.ofStatus Status.error) (clock env 8))
              {| Response.status := 404 |}
              ltac:(vm_compute; reflexivity)
              ltac:(intros rl H; vm_compute in H; discriminate H)
              ltac:(reflexivity)) as (H1 & (req & H2 & _) & _).
  split; [exact H1|]. fold run in H2. rewrite H2, length_app. simpl. lia.
Defined.

(** X6. A transport failure is logged and thrown on: under the same
    conditions, when the network throws [err], [makeApiCall] throws the
    same [err] to its caller after it issued exactly one request and pushed
    exactly one event, [api_call]/[outbound]/[failed] with the message of
    [err] and no HTTP status. *)
Theorem makeApiCall_transport_failure (env : Env) (id method endpoint : string)
  (data : JsValue) (headers : option (JsMap.t string)) (s : State)
  (c : IntegrationConfig.t) (err : JsError) :
  JsMap.get id (integrations (this s)) = Some c ->
  passesLimiter env id s ->
  let n := ticksAfterCheck id s in
  network env (S n) (requestOf c method endpoint data headers) = Threw err ->
  let run := makeApiCall env id method endpoint data headers s in
  fst run = Threw err
  /\ (exists req, io (snd run) = io s ++ [Fetch req]
                  /\ Request.url req = endpoint /\ Request.method req = method)
  /\ (exists e,
        events (this (snd run)) = pushEvent e (events (this s))
        /\ IntegrationEvent.integrationId e = id
        /\ IntegrationEvent.type e = EventType.api_call
        /\ IntegrationEvent.direction e = Direction.outbound
        /\ IntegrationEvent.status e = EventStatus.failed
        /\ IntegrationEvent.error e = Some (message err)
        /\ IntegrationEvent.metadata e
           = Some {| Metadata.endpoint := Some endpoint;
                     Metadata.httpStatus := None;
                     Metadata.responseTime :=
                       Some (clock env (S (S n)) - clock env n) |})
  /\ integrations (this (snd run)) = integrations (this s).
Proof.
  intros Hc Hpass n Hnet run. subst run.
  rewrite (makeApiCall_sent env id method endpoint data headers s c Hc Hpass).
  cbv zeta. fold n. rewrite Hnet. cbn [fst snd this events io integrations].
  split; [reflexivity|]. split; [eexists; repeat split|].
  split; [|reflexivity]. eexists. split; [reflexivity|]. repeat split.
Qed.

Lemma makeApiCall_transport_failure_witness :
  let env := Scenario.unreachable in
  let s := Scenario.registered env (Scenario.config "Y" true None) in
  let run := makeApiCall env "Y" "GET" "https://api.example.com/items" JsUndefined None s in
  fst run = Threw (Error "Failed to fetch")
  /\ length (io (snd run)) = S (length (io s)).
Proof.
  intros env s run.
  destruct (makeApiCall_transport_failure env "Y" "GET" "https://api.example.com/items"
              JsUndefined None s
              (PartialConfig.merge
                 (IntegrationConfig.stamped (Scenario.config "Y" true None)
                    (clock env 0) (clock env 1))
                 (PartialConfig.ofStatus Status.error) (clock env 8))
              (Error "Failed to fetch")
              ltac:(vm_compute; reflexivity)
              ltac:(intros rl H; vm_compute in H; discriminate H)
              ltac:(reflexivity)) as (H1 & (req & H2 & _) & _).
  split; [exact H1|]. fold run in H2. rewrite H2, length_app. simpl. lia.
Defined.

(** ** The headers of a request *)

Module SpreadFacts.
Section Facts.
Context {V : Type}.
Implicit Types (a b : JsMap.t V) (k : string) (v : V).

Lemma get_None_not_key k b : JsMap.get k b = None -> ~ In k (map fst b).
Proof.
  induction b as [|[k' v'] b IH]; simpl; [tauto|].
  destruct (k' =? k)%string eqn:E; [discriminate|].
  intros H [Hk|Hk]; [|exact (IH H Hk)].
  subst k'. rewrite String.eqb_refl in E. discriminate.
Qed.

Lemma not_key_get_None k b : ~ In k (map fst b) -> JsMap.get k b = None.
Proof.
  induction b as [|[k' v'] b IH]; simpl; [reflexivity|].
  intros H. destruct (k' =? k)%string eqn:E.
  - apply String.eqb_eq in E. tauto.
  - apply IH. tauto.
Qed.

(** In [{...a, ...b}] a key of [b] has the value of [b], any other key the
    value of [a]. *)
Lemma get_spread k b : forall a,
  NoDup (map fst b) ->
  JsMap.get k (JsMap.spread a b)
  = match JsMap.get k b with Some v => Some v | None => JsMap.get k a end.
Proof.
  unfold JsMap.spread.
  induction b as [|[k' v'] b IH]; intros a Hnd; simpl; [reflexivity|].
  inversion Hnd as [|? ? Hnotin Hnd']; subst.
  rewrite IH by exact Hnd'.
  destruct (k' =? k)%string eqn:E.
  - apply String.eqb_eq in E. subst k'.
    rewrite (not_key_get_None k b Hnotin). cbn [fst snd].
    apply JsMapFacts.get_set_same.
  - destruct (JsMap.get k b); [reflexivity|]. cbn [fst snd].
    apply JsMapFacts.get_set_other. intros Heq. subst k'.
    rewrite String.eqb_refl in E. discriminate.
Qed.

End Facts.
End SpreadFacts.

Lemma getAuthHeaders_get c :
  JsMap.get "Authorization" (getAuthHeaders c) = authorizationOf c None
  /\ NoDup (map fst (getAuthHeaders c))
  /\ JsMap.get "Content-Type" (getAuthHeaders c) = None.
Proof.
  unfold getAuthHeaders, authorizationOf. cbn [JsMap.get JsMap.empty].
  destruct (truthyString (Credentials.apiKey _)) as [k|];
    destruct (truthyString (Credentials.accessToken _)) as [t|]; cbn;
    repeat split; repeat constructor; simpl; tauto.
Qed.

(** X7. Precedence of credentials in a request: for a registered
    integration that its limiter lets through, and caller headers without a
    repeated name, the one request that [makeApiCall] issues carries as
    [Authorization] the caller's own header if there is one, else
    ["Bearer " + accessToken] if the access token is set and not empty, else
    ["Bearer " + apiKey] if the API key is set and not empty, else none; and
    its [Content-Type] is ["application/json"] unless the caller's headers
    name another. *)
Theorem request_authorization (env : Env) (id method endpoint : string) (data : JsValue)
  (headers : option (JsMap.t string)) (s : State) (c : IntegrationConfig.t) :
  JsMap.get id (integrations (this s)) = Some c ->
  passesLimiter env id s ->
  NoDup (map fst (match headers with Some h => h | None => JsMap.empty end)) ->
  let run := makeApiCall env id method endpoint data headers s in
  exists req,
    io (snd run) = io s ++ [Fetch req]
    /\ JsMap.get "Authorization" (Request.headers req) = authorizationOf c headers
    /\ JsMap.get "Content-Type" (Request.headers req)
       = match JsMap.get "Content-Type"
                 (match headers with Some h => h | None => JsMap.empty end) with
         | Some v => Some v
         | None => Some "application/json"
         end.
Proof.
  intros Hc Hpass Hnd run. subst run.
  rewrite (makeApiCall_sent env id method endpoint data headers s c Hc Hpass).
  cbv zeta. cbn [snd io]. eexists. split; [reflexivity|].
  destruct (getAuthHeaders_get c) as (Hauth & Hnd' & Hct).
  unfold requestOf. cbn [Request.headers].
  rewrite !SpreadFacts.get_spread by assumption.
  rewrite Hauth, Hct. unfold authorizationOf.
  set (own := match headers with Some h => h | None => JsMap.empty end).
  cbn [JsMap.get JsMap.empty].
  change (("Content-Type" =? "Authorization")%string) with false.
  change (("Content-Type" =? "Content-Type")%string) with true.
  cbv iota.
  split.
  - destruct (JsMap.get "Authorization" own); [reflexivity|].
    destruct (truthyString (Credentials.accessToken _)); [reflexivity|].
    destruct (truthyString (Credentials.apiKey _)); reflexivity.
  - destruct (JsMap.get "Content-Type" own); reflexivity.
Qed.

Lemma request_authorization_witness :
  let env := Scenario.answering 200 in
  let s := Scenario.registered env (Scenario.config "Y" true None) in
  exists req,
    io (snd (makeApiCall env "Y" "GET" "https://api.example.com/items" JsUndefined
               (Some [("Authorization", "Basic dXNlcg")]) s))
    = io s ++ [Fetch req]
    /\ JsMap.get "Authorization" (Request.headers req) = Some "Basic dXNlcg".
Proof.
  intros env s.
  destruct (request_authorization env "Y" "GET" "https://api.example.com/items"
              JsUndefined (Some [("Authorization", "Basic dXNlcg")]) s
              (PartialConfig.merge
                 (IntegrationConfig.stamped (Scenario.config "Y" true None)
                    (clock env 0) (clock env 1))
                 (PartialConfig.ofStatus Status.active) (clock env 8))
              ltac:(vm_compute; reflexivity)
              ltac:(intros rl H; vm_compute in H; discriminate H)
              ltac:(repeat constructor; simpl; tauto)) as (req & H1 & H2 & _).
  exists req. split; [exact H1|exact H2].
Defined.

(** ** Registration and update *)

Section Registration.
Variable env : Env.

Lemma registerIntegration_run config s :
  registerIntegration env config s
  = bind (testIntegration env (IntegrationConfig.id config))
      (fun _ => ret (IntegrationConfig.id config)) (stampedState env config s).
Proof.
  unfold registerIntegration, stampedState.
  rewrite !Date_now_bind. cbv zeta. rewrite mutate_bind.
  cbn [IntegrationConfig.settings IntegrationConfig.stamped IntegrationConfig.id].
  destruct (Settings.rateLimits (IntegrationConfig.settings config)) as [lim|].
  - rewrite mutate_bind. reflexivity.
  - rewrite ret_bind. reflexivity.
Qed.

(** The connection test of a registered integration returns, with the
    status set to [active] or [error]. *)
Lemma testIntegration_total id s c :
  JsMap.get id (integrations (this s)) = Some c ->
  let call :=
    makeApiCall env id "GET"
      (Endpoints.base (IntegrationConfig.endpoints c) ++ "/health")%string
      JsUndefined None s in
  exists b status u,
    testIntegration env id s = (Returned b, snd (testIntegration env id s))
    /\ (status = Status.active \/ status = Status.error)
    /\ integrations (this (snd (testIntegration env id s)))
       = JsMap.set id (PartialConfig.merge c (PartialConfig.ofStatus status) u)
           (integrations (this s))
    /\ rateLimiters (this (snd (testIntegration env id s))) = rateLimiters (this (snd call)).
Proof.
  intros Hc. cbv zeta.
  pose proof (testIntegration_registered env id s c Hc) as H. cbv zeta in H.
  destruct H as [Hlim H].
  destruct (testIntegration env id s) as [res st] eqn:Etest. cbn [fst snd] in *.
  destruct (fst (makeApiCall env id "GET" _ JsUndefined None s)) as [r|err];
    destruct H as (H1 & H2 & _); subst res.
  - exists (Response.ok r), (if Response.ok r then Status.active else Status.error).
    eexists. split; [reflexivity|]. split; [destruct (Response.ok r); auto|].
    split; [exact H2|exact Hlim].
  - exists false, Status.error. eexists. split; [reflexivity|]. split; [auto|].
    split; [exact H2|exact Hlim].
Qed.

Lemma registerIntegration_spec config s :
  let id := IntegrationConfig.id config in
  let s2 := stampedState env config s in
  let integration :=
    IntegrationConfig.stamped config (clock env (ticks s)) (clock env (S (ticks s))) in
  let call :=
    makeApiCall env id "GET"
      (Endpoints.base (IntegrationConfig.endpoints config) ++ "/health")%string
      JsUndefined None s2 in
  let s' := snd (registerIntegration env config s) in
  exists status u,
    registerIntegration env config s = (Returned id, s')
    /\ (status = Status.active \/ status = Status.error)
    /\ integrations (this s')
       = JsMap.set id (PartialConfig.merge integration (PartialConfig.ofStatus status) u)
           (JsMap.set id integration (integrations (this s)))
    /\ rateLimiters (this s') = rateLimiters (this (snd call)).
Proof.
  cbv zeta. rewrite registerIntegration_run.
  assert (Hc : JsMap.get (IntegrationConfig.id config)
                 (integrations (this (stampedState env config s)))
               = Some (IntegrationConfig.stamped config (clock env (ticks s))
                         (clock env (S (ticks s)))))
    by apply JsMapFacts.get_set_same.
  destruct (testIntegration_total _ _ _ Hc) as (b & status & u & Hb & Hst & Hint & Hrl).
  exists status, u. rewrite (bind_returned _ _ _ _ _ Hb).
  unfold ret. cbn [fst snd]. repeat split; assumption.
Qed.

End Registration.

(** X8. Registration always completes, and the connection test decides the
    status: whatever the config, the state and the network,
    [registerIntegration] returns the id of the config (it never throws);
    the registry then holds under that id the fields of the config with the
    instant of the call as [createdAt], and a status that is [active] or
    [error], never the declared [inactive] or [pending]. *)
Theorem registerIntegration_completes (env : Env) (config : IntegrationConfig.t)
  (s : State) :
  let id := IntegrationConfig.id config in
  let run := registerIntegration env config s in
  fst run = Returned id
  /\ exists stored,
       JsMap.get id (integrations (this (snd run))) = Some stored
       /\ (IntegrationConfig.status stored = Status.active
           \/ IntegrationConfig.status stored = Status.error)
       /\ IntegrationConfig.id stored = id
       /\ IntegrationConfig.name stored = IntegrationConfig.name config
       /\ IntegrationConfig.category stored = IntegrationConfig.category config
       /\ IntegrationConfig.provider stored = IntegrationConfig.provider config
       /\ IntegrationConfig.credentials stored = IntegrationConfig.credentials config
       /\ IntegrationConfig.settings stored = IntegrationConfig.settings config
       /\ IntegrationConfig.endpoints stored = IntegrationConfig.endpoints config
       /\ IntegrationConfig.createdAt stored = clock env (ticks s).
Proof.
  cbv zeta.
  destruct (registerIntegration_spec env config s) as (status & u & Hrun & Hst & Hint & _).
  cbv zeta in *. rewrite Hrun at 1. split; [reflexivity|].
  eexists. split; [rewrite Hint; apply JsMapFacts.get_set_same|].
  cbn. repeat split. exact Hst.
Qed.

(** X9. Registering with limits starts a new limiter: when the config
    declares [rateLimits], the limiter bound to its id after
    [registerIntegration] is a new limiter with these limits that has seen
    one check only, the one of the connection test; what an older limiter
    of that id had counted is dropped. *)
Theorem registerIntegration_new_limiter (env : Env) (config : IntegrationConfig.t)
  (s : State) (lim : RateLimits) :
  Settings.rateLimits (IntegrationConfig.settings config) = Some lim ->
  let id := IntegrationConfig.id config in
  let s' := snd (registerIntegration env config s) in
  let limiter := snd (RateLimiter.canMakeRequest (clock env (2 + ticks s)) (RateLimiter.new lim)) in
  JsMap.get id (rateLimiters (this s')) = Some limiter
  /\ RateLimiter.limits limiter = lim
  /\ (RateLimiter.requests limiter = [] \/ RateLimiter.requests limiter = [clock env (2 + ticks s)]).
Proof.
  intros Hlim. cbv zeta.
  destruct (registerIntegration_spec env config s) as (status & u & _ & _ & _ & Hrl).
  cbv zeta in Hrl. rewrite Hrl.
  assert (Hc : JsMap.get (IntegrationConfig.id config)
                 (integrations (this (stampedState env config s)))
               = Some (IntegrationConfig.stamped config (clock env (ticks s))
                         (clock env (S (ticks s)))))
    by apply JsMapFacts.get_set_same.
  assert (Hl : JsMap.get (IntegrationConfig.id config)
                 (rateLimiters (this (stampedState env config s)))
               = Some (RateLimiter.new lim)).
  { unfold stampedState. cbn [this rateLimiters]. rewrite Hlim.
    apply JsMapFacts.get_set_same. }
  rewrite (makeApiCall_limiter env _ _ _ _ _ _ _ _ Hc Hl).
  split; [apply JsMapFacts.get_set_same|].
  split; [apply RateLimiterFacts.canMakeRequest_limits|].
  rewrite RateLimiterFacts.canMakeRequest_requests. cbn [RateLimiter.requests RateLimiter.new filter app].
  destruct (fst _); auto.
Qed.

Lemma registerIntegration_new_limiter_witness :
  let env := Scenario.answering 200 in
  let s := Scenario.registered env (Scenario.config "X" true (Some Scenario.limits_1_5_10)) in
  let s' := snd (registerIntegration env
                   (Scenario.config "X" true (Some Scenario.limits_1_5_10)) s) in
  option_map RateLimiter.requests (JsMap.get "X" (rateLimiters (this s)))
  = Some [clock env 2]
  /\ JsMap.get "X" (rateLimiters (this s'))
     = Some (snd (RateLimiter.canMakeRequest (clock env (2 + ticks s))
                    (RateLimiter.new Scenario.limits_1_5_10))).
Proof.
  intros env s s'. split; [vm_compute; reflexivity|].
  destruct (registerIntegration_new_limiter env
              (Scenario.config "X" true (Some Scenario.limits_1_5_10)) s
              Scenario.limits_1_5_10 eq_refl) as (H1 & _ & _).
  exact H1.
Defined.

Module KeyFacts.
Section Facts.
Context {V : Type}.
Implicit Types (m : JsMap.t V) (k : string) (v : V).

(** [set] on a present key keeps the order of the keys; on a new key it
    appends the key. *)
Lemma keys_set k v m :
  map fst (JsMap.set k v m)
  = match JsMap.get k m with Some _ => map fst m | None => map fst m ++ [k] end.
Proof.
  induction m as [|[k' v'] m IH]; simpl; [reflexivity|].
  destruct (k' =? k)%string eqn:E; simpl.
  - apply String.eqb_eq in E. subst k'. reflexivity.
  - rewrite IH. destruct (JsMap.get k m); reflexivity.
Qed.

Lemma get_set k k' v m :
  JsMap.get k' (JsMap.set k v m) = if (k =? k')%string then Some v else JsMap.get k' m.
Proof.
  destruct (k =? k')%string eqn:E.
  - apply String.eqb_eq in E. subst k'. apply JsMapFacts.get_set_same.
  - apply JsMapFacts.get_set_other. intros H. subst k'.
    rewrite String.eqb_refl in E. discriminate.
Qed.

End Facts.
End KeyFacts.

(** X10. What [updateIntegration] changes: for a registered id it returns,
    replaces the entry kept under that id (the key is the id passed, also
    when the updates carry another id) by the merge of the stored config and
    the updates, with [updatedAt] read from the clock whatever the updates
    say, and keeps the order of the registry; every other entry, the bound
    limiters (new [rateLimits] in the updates do not reach the limiter), the
    handlers, the event log and the trace of outside calls are as before. *)
Theorem updateIntegration_effect (env : Env) (id : string) (updates : PartialConfig.t)
  (s : State) (c : IntegrationConfig.t) :
  JsMap.get id (integrations (this s)) = Some c ->
  let run := updateIntegration env id updates s in
  let s' := snd run in
  fst run = Returned tt
  /\ JsMap.get id (integrations (this s'))
     = Some (PartialConfig.merge c updates (clock env (ticks s)))
  /\ option_map IntegrationConfig.updatedAt (JsMap.get id (integrations (this s')))
     = Some (clock env (ticks s))
  /\ (forall other, other <> id ->
        JsMap.get other (integrations (this s')) = JsMap.get other (integrations (this s)))
  /\ map fst (integrations (this s')) = map fst (integrations (this s))
  /\ rateLimiters (this s') = rateLimiters (this s)
  /\ webhookHandlers (this s') = webhookHandlers (this s)
  /\ events (this s') = events (this s)
  /\ io s' = io s.
Proof.
  intros Hc. cbv zeta. rewrite (updateIntegration_run env id updates s c Hc).
  cbn [fst snd this setIntegrations integrations rateLimiters webhookHandlers events io].
  rewrite KeyFacts.keys_set, Hc, JsMapFacts.get_set_same.
  repeat split. intros other Hne. apply JsMapFacts.get_set_other. congruence.
Qed.

Lemma updateIntegration_effect_witness :
  let env := Scenario.answering 200 in
  let s := Scenario.registered env (Scenario.config "X" true (Some Scenario.limits_1_5_10)) in
  let s' := snd (updateIntegration env "X" (PartialConfig.ofStatus Status.inactive) s) in
  option_map IntegrationConfig.status (JsMap.get "X" (integrations (this s')))
  = Some Status.inactive
  /\ rateLimiters (this s') = rateLimiters (this s).
Proof.
  intros env s s'.
  destruct (updateIntegration_effect env "X" (PartialConfig.ofStatus Status.inactive) s
              (PartialConfig.merge
                 (IntegrationConfig.stamped
                    (Scenario.config "X" true (Some Scenario.limits_1_5_10))
                    (clock env 0) (clock env 1))
                 (PartialConfig.ofStatus Status.active) (clock env 9))
              ltac:(vm_compute; reflexivity)) as (_ & H2 & _ & _ & _ & H6 & _).
  split; [|exact H6]. fold s' in H2. rewrite H2. reflexivity.
Defined.

(** X11. Toggling from the Integrations page: for a registered id,
    [handleToggleIntegration] stores the status [inactive] when the status
    it is given is ["active"] and [active] for any other (so also for
    ["error"] and ["pending"]), by the string it is given and not by the
    stored status; it returns the refreshed list of the registry; and it
    neither issues a request (an integration becomes [active] without a
    connection test) nor logs an event. *)
Theorem handleToggleIntegration_effect (env : Env) (id currentStatus : string) (s : State)
  (c : IntegrationConfig.t) :
  JsMap.get id (integrations (this s)) = Some c ->
  let run := handleToggleIntegration env id currentStatus s in
  let s' := snd run in
  fst run = Returned (JsMap.values (integrations (this s')))
  /\ option_map IntegrationConfig.status (JsMap.get id (integrations (this s')))
     = Some (if (currentStatus =? "active")%string then Status.inactive else Status.active)
  /\ option_map IntegrationConfig.settings (JsMap.get id (integrations (this s')))
     = Some (IntegrationConfig.settings c)
  /\ io s' = io s
  /\ events (this s') = events (this s)
  /\ rateLimiters (this s') = rateLimiters (this s).
Proof.
  intros Hc. cbv zeta. unfold handleToggleIntegration.
  erewrite bind_returned by (apply updateIntegration_run; exact Hc).
  unfold listIntegrations. rewrite read_bind. unfold ret.
  cbn [fst snd this setIntegrations integrations rateLimiters events io truthyString].
  rewrite JsMapFacts.get_set_same. cbn.
  destruct (currentStatus =? "active")%string; repeat split.
Qed.

Lemma handleToggleIntegration_effect_witness :
  let env := Scenario.answering 500 in
  let s := Scenario.registered env (Scenario.config "Y" true None) in
  let s' := snd (handleToggleIntegration env "Y" "error" s) in
  option_map IntegrationConfig.status (JsMap.get "Y" (integrations (this s)))
  = Some Status.error
  /\ option_map IntegrationConfig.status (JsMap.get "Y" (integrations (this s')))
     = Some Status.active
  /\ io s' = io s.
Proof.
  intros env s s'. split; [vm_compute; reflexivity|].
  destruct (handleToggleIntegration_effect env "Y" "error" s
              (PartialConfig.merge
                 (IntegrationConfig.stamped (Scenario.config "Y" true None)
                    (clock env 0) (clock env 1))
                 (PartialConfig.ofStatus Status.error) (clock env 8))
              ltac:(vm_compute; reflexivity)) as (_ & H2 & _ & H4 & _).
  split; [exact H2|exact H4].
Defined.

(** ** Registering webhook handlers *)




(* ================================================================== *)
(** ** What every method keeps *)
(* ================================================================== *)

Section Keeping.

Variable env : Env.
Variable J : IntegrationManager -> Prop.
Hypothesis JC : Closed J.

Lemma keeps_ret {A : Type} (a : A) : Keeps J (ret a).
Proof. intros s H. exact H. Qed.

Lemma keeps_throw {A : Type} (e : JsError) : Keeps J (@throw A e).
Proof. intros s H. exact H. Qed.

Lemma keeps_read {A : Type} (f : IntegrationManager -> A) : Keeps J (read f).
Proof. intros s H. exact H. Qed.

Lemma keeps_bind {A B : Type} (m : M A) (k : A -> M B) :
  Keeps J m -> (forall a, Keeps J (k a)) -> Keeps J (bind m k).
Proof.
  intros Hm Hk s H. unfold bind. specialize (Hm s H).
  destruct (m s) as [[a|e] s']; [apply Hk; exact Hm|exact Hm].
Qed.

(** The continuation may depend on what is read. *)
Lemma keeps_read_bind {A B : Type} (f : IntegrationManager -> A) (k : A -> M B) s :
  J (this (snd (k (f (this s)) s))) -> J (this (snd (bind (read f) k s))).
Proof. intros H. exact H. Qed.

Lemma keeps_bind_at {A B : Type} (m : M A) (k : A -> M B) s :
  J (this (snd (m s))) -> (forall a, Keeps J (k a)) -> J (this (snd (bind m k s))).
Proof.
  intros Hm Hk. unfold bind.
  destruct (m s) as [[a|e] s']; [apply Hk; exact Hm|exact Hm].
Qed.

Lemma keeps_try_catch {A : Type} (body : M A) (handler : JsError -> M A) :
  Keeps J body -> (forall e, Keeps J (handler e)) -> Keeps J (try_catch body handler).
Proof.
  intros Hb Hh s H. unfold try_catch. specialize (Hb s H).
  destruct (body s) as [[a|e] s']; [exact Hb|apply Hh; exact Hb].
Qed.

Lemma keeps_forEach {A : Type} (l : list A) (body : A -> M unit) :
  (forall x, Keeps J (body x)) -> Keeps J (forEach l body).
Proof.
  intros Hb. induction l as [|x l IH]; simpl.
  - apply keeps_ret.
  - apply keeps_bind; [apply Hb|intros _; exact IH].
Qed.

Lemma keeps_mutate (f : IntegrationManager -> IntegrationManager) :
  (forall m, J m -> J (f m)) -> Keeps J (mutate f).
Proof. intros Hf s H. apply Hf. exact H. Qed.

Lemma keeps_Date_now : Keeps J (Date_now env).
Proof. intros s H. exact H. Qed.

Lemma keeps_Math_random36 : Keeps J (Math_random36 env).
Proof. intros s H. exact H. Qed.

Lemma keeps_fetch r : Keeps J (fetch env r).
Proof. intros s H. exact H. Qed.

Lemma keeps_console_log line : Keeps J (console_log line).
Proof. intros s H. exact H. Qed.

Lemma keeps_callHandler h payload : Keeps J (callHandler h payload).
Proof. intros s H. exact H. Qed.

Lemma keeps_provider step id : Keeps J (provider step id).
Proof. intros s H. exact H. Qed.

Lemma keeps_logEvent id type direction status data error metadata :
  type <> EventType.auth_refresh ->
  status <> EventStatus.pending ->
  (direction = Direction.inbound <-> type = EventType.webhook) ->
  Keeps J (logEvent env id type direction status data error metadata).
Proof.
  intros Ht Hs Hd. unfold logEvent.
  apply keeps_bind; [apply keeps_Date_now|intros stamp].
  apply keeps_bind; [apply keeps_Math_random36|intros suffix].
  apply keeps_bind; [apply keeps_Date_now|intros timestamp].
  apply keeps_mutate. intros m Hm. apply (closed_push J JC); [exact Hm|].
  unfold wellFormedEvent, newEvent. cbn. auto.
Qed.

Lemma keeps_updateIntegration id updates : Keeps J (updateIntegration env id updates).
Proof.
  unfold updateIntegration. intros s H. apply keeps_read_bind.
  destruct (JsMap.get id (integrations (this s))) as [c|]; [|exact H].
  revert s H. apply keeps_bind; [apply keeps_Date_now|intros now].
  apply keeps_mutate. intros m Hm. apply (closed_store J JC). exact Hm.
Qed.

Lemma keeps_makeApiCall id method endpoint data headers :
  Keeps J (makeApiCall env id method endpoint data headers).
Proof.
  unfold makeApiCall. intros s H. apply keeps_read_bind.
  destruct (JsMap.get id (integrations (this s))) as [c|] eqn:Hc; [|exact H].
  apply keeps_read_bind. apply keeps_bind_at.
  - destruct (JsMap.get id (rateLimiters (this s))) as [rl|] eqn:Hrl; [|exact H].
    apply keeps_bind_at; [|intros [|]; [apply keeps_ret|apply keeps_throw]].
    unfold limiterCanMakeRequest, bind, Date_now, mutate, ret.
    destruct (RateLimiter.canMakeRequest (clock env (ticks s)) rl) as [allowed rl'] eqn:E.
    cbn. replace rl' with (snd (RateLimiter.canMakeRequest (clock env (ticks s)) rl))
      by (rewrite E; reflexivity).
    apply (closed_check J JC); [exact H|congruence|exact Hrl].
  - intros _. apply keeps_bind; [apply keeps_Date_now|intros startTime].
    apply keeps_try_catch.
    + apply keeps_bind; [apply keeps_fetch|intros response].
      apply keeps_bind; [apply keeps_Date_now|intros endTime].
      apply keeps_bind; [|intros _; apply keeps_ret].
      apply keeps_logEvent.
      * discriminate.
      * destruct (Response.ok response); discriminate.
      * split; discriminate.
    + intros error. apply keeps_bind; [apply keeps_Date_now|intros endTime].
      apply keeps_bind; [|intros _; apply keeps_throw].
      apply keeps_logEvent; [discriminate|discriminate|split; discriminate].
Qed.

Lemma keeps_testIntegration id : Keeps J (testIntegration env id).
Proof.
  unfold testIntegration. intros s H. apply keeps_read_bind.
  destruct (JsMap.get id (integrations (this s))) as [c|]; [|exact H].
  revert s H. apply keeps_try_catch.
  - apply keeps_bind; [apply keeps_makeApiCall|intros response].
    destruct (Response.ok response);
      (apply keeps_bind; [apply keeps_updateIntegration|intros _; apply keeps_ret]).
  - intros error.
    apply keeps_bind; [apply keeps_updateIntegration|intros _].
    apply keeps_bind; [|intros _; apply keeps_ret].
    apply keeps_logEvent; [discriminate|discriminate|split; discriminate].
Qed.

Lemma keeps_registerIntegration config : Keeps J (registerIntegration env config).
Proof.
  intros s H. rewrite registerIntegration_run.
  apply keeps_bind; [apply keeps_testIntegration|intros _; apply keeps_ret|].
  unfold stampedState. cbn [this].
  pose proof (closed_store J JC (this s) (IntegrationConfig.id config)
                (IntegrationConfig.stamped config (clock env (ticks s))
                   (clock env (S (ticks s)))) H) as H1.
  destruct (Settings.rateLimits (IntegrationConfig.settings config)) as [lim|].
  - apply (closed_bind J JC _ (IntegrationConfig.id config) lim) in H1.
    + exact H1.
    + cbn. rewrite JsMapFacts.get_set_same. discriminate.
  - exact H1.
Qed.

Lemma keeps_registerWebhookHandler h : Keeps J (registerWebhookHandler h).
Proof.
  unfold registerWebhookHandler.
  apply keeps_bind; [apply keeps_read|intros existing].
  apply keeps_mutate. intros m Hm. apply (closed_handlers J JC). exact Hm.
Qed.

Lemma keeps_handleWebhook id eventType data : Keeps J (handleWebhook env id eventType data).
Proof.
  unfold handleWebhook.
  apply keeps_bind; [apply keeps_read|intros matching].
  apply keeps_forEach. intros h. apply keeps_try_catch.
  - apply keeps_bind; [apply keeps_callHandler|intros _].
    apply keeps_logEvent; [discriminate|discriminate|split; reflexivity].
  - intros error. apply keeps_logEvent; [discriminate|discriminate|split; reflexivity].
Qed.

Lemma keeps_syncData id direction : Keeps J (syncData env id direction).
Proof.
  unfold syncData. intros s H. apply keeps_read_bind.
  destruct (JsMap.get id (integrations (this s))) as [c|]; [|exact H].
  destruct (negb _); [exact H|].
  revert s H. apply keeps_try_catch.
  - apply keeps_bind.
    { destruct (runsPull direction); [|apply keeps_ret].
      unfold pullData. apply keeps_bind; [apply keeps_console_log|intros _].
      apply keeps_provider. }
    intros _. apply keeps_bind.
    { destruct (runsPush direction); [|apply keeps_ret].
      unfold pushData. apply keeps_bind; [apply keeps_console_log|intros _].
      apply keeps_provider. }
    intros _. apply keeps_bind; [apply keeps_Date_now|intros now].
    apply keeps_bind; [apply keeps_updateIntegration|intros _].
    apply keeps_logEvent; [discriminate|discriminate|split; discriminate].
  - intros error. apply keeps_logEvent; [discriminate|discriminate|split; discriminate].
Qed.

Lemma keeps_setupCommonIntegrations : Keeps J (setupCommonIntegrations env).
Proof.
  unfold setupCommonIntegrations.
  repeat (apply keeps_bind; [apply keeps_registerIntegration|intros _]).
  apply keeps_ret.
Qed.

Lemma keeps_handleToggleIntegration id currentStatus :
  Keeps J (handleToggleIntegration env id currentStatus).
Proof.
  unfold handleToggleIntegration.
  apply keeps_bind; [apply keeps_updateIntegration|intros _].
  apply keeps_bind; [apply keeps_read|intros l; apply keeps_ret].
Qed.

Lemma perform_keeps call s : J (this s) -> J (this (perform env call s)).
Proof.
  destruct call; simpl.
  - apply keeps_registerIntegration.
  - apply keeps_updateIntegration.
  - intros H. exact H.
  - intros H. exact H.
  - apply keeps_testIntegration.
  - apply keeps_makeApiCall.
  - apply keeps_registerWebhookHandler.
  - apply keeps_handleWebhook.
  - apply keeps_syncData.
  - intros H. exact H.
  - intros H. exact H.
  - apply keeps_setupCommonIntegrations.
  - apply keeps_handleToggleIntegration.
Qed.

Lemma performAll_keeps calls : forall s, J (this s) -> J (this (performAll env calls s)).
Proof.
  induction calls as [|call calls IH]; intros s H; simpl; [exact H|].
  apply IH. apply perform_keeps. exact H.
Qed.

End Keeping.

(** ** The invariant of the manager *)

Lemma In_skipn {A : Type} (x : A) n l : In x (skipn n l) -> In x l.
Proof.
  intros H. rewrite <- (firstn_skipn n l). apply in_or_app. right. exact H.
Qed.

Lemma pushEvent_Forall (P : IntegrationEvent.t -> Prop) e log :
  Forall P log -> P e -> Forall P (pushEvent e log).
Proof.
  intros Hl He. rewrite pushEvent_slice. unfold slice_last.
  apply Forall_forall. intros x Hx. apply In_skipn in Hx.
  apply in_app_or in Hx. destruct Hx as [Hx|[Hx|[]]].
  - rewrite Forall_forall in Hl. apply Hl. exact Hx.
  - subst x. exact He.
Qed.

Lemma pushEvent_length e log : (length (pushEvent e log) <= MAX_EVENTS)%nat.
Proof. rewrite pushEvent_slice, length_slice_last. lia. Qed.

Lemma ManagerInvariant_closed : Closed ManagerInvariant.
Proof.
  split.
  - intros m e [H1 H2 H3 H4] He. split; cbn.
    + apply pushEvent_length.
    + apply pushEvent_Forall; assumption.
    + exact H3.
    + exact H4.
  - intros m k c [H1 H2 H3 H4]. split; cbn; try assumption.
    intros k' rl Hrl. rewrite KeyFacts.get_set.
    destruct (k =? k')%string; [discriminate|]. exact (H3 k' rl Hrl).
  - intros m k now rl [H1 H2 H3 H4] Hreg Hrl. split; cbn; try assumption.
    + intros k' rl'. rewrite KeyFacts.get_set.
      destruct (k =? k')%string eqn:E.
      * apply String.eqb_eq in E. subst k'. intros _. exact Hreg.
      * apply H3.
    + intros k' rl'. rewrite KeyFacts.get_set.
      destruct (k =? k')%string eqn:E.
      * intros Heq. inversion Heq. subst rl'.
        apply RateLimiterLog.canMakeRequest_bound. exact (H4 k rl Hrl).
      * apply H4.
  - intros m k lim [H1 H2 H3 H4] Hreg. split; cbn; try assumption.
    + intros k' rl'. rewrite KeyFacts.get_set.
      destruct (k =? k')%string eqn:E.
      * apply String.eqb_eq in E. subst k'. intros _. exact Hreg.
      * apply H3.
    + intros k' rl'. rewrite KeyFacts.get_set.
      destruct (k =? k')%string eqn:E.
      * intros Heq. inversion Heq. unfold boundedLimiter. simpl. lia.
      * apply H4.
  - intros m f [H1 H2 H3 H4]. split; cbn; assumption.
Qed.

Lemma ManagerInvariant_new : ManagerInvariant newIntegrationManager.
Proof.
  split; cbn.
  - lia.
  - constructor.
  - intros k rl H. discriminate H.
  - intros k rl H. discriminate H.
Qed.

Lemma session_invariant env calls :
  ManagerInvariant (this (performAll env calls initialState)).
Proof.
  apply performAll_keeps; [exact ManagerInvariant_closed|exact ManagerInvariant_new].
Qed.

(** X13. The event log under any use of the manager: after any sequence of
    calls of the public methods (and of the two callers) on a new manager,
    whatever the environment answers, the log holds at most 10,000 events,
    and every event in it has [retryCount] 0, a type other than
    [auth_refresh], a status other than [pending], and is [inbound] exactly
    when it is a [webhook] event. *)
Theorem session_event_log (env : Env) (calls : list Call) :
  let log := events (this (performAll env calls initialState)) in
  Z.of_nat (length log) <= 10000
  /\ Forall (fun e =>
               IntegrationEvent.retryCount e = 0
               /\ IntegrationEvent.type e <> EventType.auth_refresh
               /\ IntegrationEvent.status e <> EventStatus.pending
               /\ (IntegrationEvent.direction e = Direction.inbound
                   <-> IntegrationEvent.type e = EventType.webhook)) log.
Proof.
  cbv zeta. destruct (session_invariant env calls) as [H1 H2 _ _].
  split; [pose proof MAX_EVENTS_value; lia|exact H2].
Qed.

(** X14. Limiters under any use of the manager: after any sequence of
    calls on a new manager, every limiter in the limiter map belongs to an
    integration that is in the registry, and its log holds no more
    timestamps than its daily limit. *)
Theorem session_limiters (env : Env) (calls : list Call) (id : string)
  (rl : RateLimiter.t) :
  let m := this (performAll env calls initialState) in
  JsMap.get id (rateLimiters m) = Some rl ->
  (exists c, JsMap.get id (integrations m) = Some c)
  /\ (N.of_nat (length (RateLimiter.requests rl))
      <= requestsPerDay (RateLimiter.limits rl))%N.
Proof.
  cbv zeta. intros Hrl. destruct (session_invariant env calls) as [_ _ H3 H4].
  split; [|exact (H4 id rl Hrl)].
  specialize (H3 id rl Hrl).
  destruct (JsMap.get id (integrations _)) as [c|]; [exists c; reflexivity|contradiction].
Qed.

Lemma session_limiters_witness :
  let env := Scenario.answering 200 in
  let calls :=
    [RegisterIntegration (Scenario.config "X" true (Some Scenario.limits_1_5_10));
     MakeApiCall "X" "GET" "https://api.example.com/items" JsUndefined None;
     RegisterIntegration (Scenario.config "X" true None)] in
  let m := this (performAll env calls initialState) in
  exists rl c,
    JsMap.get "X" (rateLimiters m) = Some rl
    /\ JsMap.get "X" (integrations m) = Some c
    /\ (N.of_nat (length (RateLimiter.requests rl)) <= 10)%N.
Proof.
  intros env calls m.
  assert (Hrl : JsMap.get "X" (rateLimiters m)
                = Some {| RateLimiter.requests := [clock env 2];
                          RateLimiter.limits := Scenario.limits_1_5_10 |})
    by (vm_compute; reflexivity).
  destruct (session_limiters env calls "X" _ Hrl) as [[c Hc] Hb].
  eexists. exists c. split; [exact Hrl|]. split; [exact Hc|exact Hb].
Defined.

Lemma registered_closed k : Closed (fun m => JsMap.get k (integrations m) <> None).
Proof.
  split; cbn; try (intros; assumption).
  intros m k' c H. rewrite KeyFacts.get_set. destruct (k' =? k)%string; [discriminate|exact H].
Qed.

Lemma limiter_bound_closed k : Closed (fun m => JsMap.get k (rateLimiters m) <> None).
Proof.
  split; cbn; try (intros; assumption).
  - intros m k' now rl H _ _. rewrite KeyFacts.get_set.
    destruct (k' =? k)%string; [discriminate|exact H].
  - intros m k' lim H _. rewrite KeyFacts.get_set.
    destruct (k' =? k)%string; [discriminate|exact H].
Qed.

(** X15. Nothing is ever removed: an integration that is in the registry,
    and a limiter that is bound, are still there after any sequence of
    calls of the public methods, from any state. *)
Theorem registry_only_grows (env : Env) (calls : list Call) (s : State) (id : string) :
  let s' := performAll env calls s in
  (JsMap.get id (integrations (this s)) <> None ->
   JsMap.get id (integrations (this s')) <> None)
  /\ (JsMap.get id (rateLimiters (this s)) <> None ->
      JsMap.get id (rateLimiters (this s')) <> None).
Proof.
  cbv zeta. split.
  - apply (performAll_keeps env _ (registered_closed id)).
  - apply (performAll_keeps env _ (limiter_bound_closed id)).
Qed.

(** ** Setting up the common integrations *)

Section Setup.
Variable env : Env.

Lemma makeApiCall_limiters_other id method endpoint data headers s k :
  k <> id ->
  JsMap.get k (rateLimiters (this (snd (makeApiCall env id method endpoint data headers s))))
  = JsMap.get k (rateLimiters (this s)).
Proof.
  intros Hne.
  unfold makeApiCall, limiterCanMakeRequest, logEvent, bind, read, try_catch, fetch,
    Date_now, Math_random36, mutate, ret, throw.
  destruct (JsMap.get id (integrations (this s))) as [c|]; cbn; [|reflexivity].
  destruct (JsMap.get id (rateLimiters (this s))) as [rl|]; cbn.
  - destruct (RateLimiter.canMakeRequest (clock env (ticks s)) rl) as [[|] rl']; cbn.
    + destruct (network env _ _) as [r|err]; cbn;
        apply JsMapFacts.get_set_other; congruence.
    + apply JsMapFacts.get_set_other. congruence.
  - destruct (network env _ _) as [r|err]; reflexivity.
Qed.

Lemma registerIntegration_others config s k :
  k <> IntegrationConfig.id config ->
  let s' := snd (registerIntegration env config s) in
  JsMap.get k (integrations (this s')) = JsMap.get k (integrations (this s))
  /\ JsMap.get k (rateLimiters (this s')) = JsMap.get k (rateLimiters (this s)).
Proof.
  intros Hne. cbv zeta.
  destruct (registerIntegration_spec env config s) as (status & u & _ & _ & Hint & Hrl).
  cbv zeta in Hint, Hrl. rewrite Hint, Hrl. split.
  - rewrite !JsMapFacts.get_set_other by congruence. reflexivity.
  - rewrite makeApiCall_limiters_other by exact Hne.
    unfold stampedState. cbn [this rateLimiters].
    destruct (Settings.rateLimits _); [|reflexivity].
    apply JsMapFacts.get_set_other. congruence.
Qed.

Lemma registerIntegration_sets_up config s lim :
  Settings.rateLimits (IntegrationConfig.settings config) = Some lim ->
  (1 <= requestsPerSecond lim)%N -> (1 <= requestsPerHour lim)%N ->
  (1 <= requestsPerDay lim)%N ->
  SetUp config (this (snd (registerIntegration env config s))).
Proof.
  intros Hlim Hs Hh Hd.
  destruct (registerIntegration_spec env config s) as (status & u & _ & Hst & Hint & Hrl).
  cbv zeta in Hint, Hrl.
  assert (Hc : JsMap.get (IntegrationConfig.id config)
                 (integrations (this (stampedState env config s)))
               = Some (IntegrationConfig.stamped config (clock env (ticks s))
                         (clock env (S (ticks s)))))
    by apply JsMapFacts.get_set_same.
  assert (Hl : JsMap.get (IntegrationConfig.id config)
                 (rateLimiters (this (stampedState env config s)))
               = Some (RateLimiter.new lim)).
  { unfold stampedState. cbn [this rateLimiters]. rewrite Hlim.
    apply JsMapFacts.get_set_same. }
  rewrite (makeApiCall_limiter env _ _ _ _ _ _ _ _ Hc Hl) in Hrl.
  rewrite (canMakeRequest_quiet _ (RateLimiter.new lim) Hs Hh Hd) in Hrl by constructor.
  unfold SetUp. rewrite Hint, Hrl, !JsMapFacts.get_set_same.
  do 2 eexists. split; [reflexivity|].
  cbn. split; [exact Hst|]. do 5 (split; [reflexivity|]).
  split; [reflexivity|]. cbn. split; [symmetry; exact Hlim|reflexivity].
Qed.

Lemma SetUp_kept config0 config s :
  IntegrationConfig.id config0 <> IntegrationConfig.id config ->
  SetUp config0 (this s) -> SetUp config0 (this (snd (registerIntegration env config s))).
Proof.
  intros Hne (stored & rl & H). unfold SetUp.
  destruct (registerIntegration_others config s _ Hne) as [H1 H2]. cbv zeta in H1, H2.
  exists stored, rl. rewrite H1, H2. exact H.
Qed.

Lemma registerIntegration_returns config s :
  registerIntegration env config s
  = (Returned (IntegrationConfig.id config), snd (registerIntegration env config s)).
Proof.
  destruct (registerIntegration_spec env config s) as (status & u & H & _).
  exact H.
Qed.

Lemma registerIntegration_keys config s :
  map fst (integrations (this (snd (registerIntegration env config s))))
  = match JsMap.get (IntegrationConfig.id config) (integrations (this s)) with
    | Some _ => map fst (integrations (this s))
    | None => map fst (integrations (this s)) ++ [IntegrationConfig.id config]
    end.
Proof.
  destruct (registerIntegration_spec env config s) as (status & u & _ & _ & Hint & _).
  cbv zeta in Hint. rewrite Hint, KeyFacts.keys_set, JsMapFacts.get_set_same.
  apply KeyFacts.keys_set.
Qed.

Lemma registerIntegration_in_turn c1 c2 c3 c4 s :
  Limited c1 -> Limited c2 -> Limited c3 -> Limited c4 ->
  NoDup (map IntegrationConfig.id [c1; c2; c3; c4]) ->
  let run := (registerIntegration env c1 ;; registerIntegration env c2 ;;
              registerIntegration env c3 ;; registerIntegration env c4 ;;
              ret tt)%js s in
  fst run = Returned tt
  /\ Forall (fun config => SetUp config (this (snd run))) [c1; c2; c3; c4]
  /\ (integrations (this s) = [] ->
      map fst (integrations (this (snd run))) = map IntegrationConfig.id [c1; c2; c3; c4]).
Proof.
  intros (l1 & L1 & A1 & B1 & C1) (l2 & L2 & A2 & B2 & C2)
         (l3 & L3 & A3 & B3 & C3) (l4 & L4 & A4 & B4 & C4) D.
  assert (D12 : IntegrationConfig.id c1 <> IntegrationConfig.id c2
              /\ IntegrationConfig.id c1 <> IntegrationConfig.id c3
              /\ IntegrationConfig.id c1 <> IntegrationConfig.id c4
              /\ IntegrationConfig.id c2 <> IntegrationConfig.id c3
              /\ IntegrationConfig.id c2 <> IntegrationConfig.id c4
              /\ IntegrationConfig.id c3 <> IntegrationConfig.id c4).
  { cbn [map] in D.
    inversion D as [|? ? N1 D']; subst. inversion D' as [|? ? N2 D'']; subst.
    inversion D'' as [|? ? N3 _]; subst. cbn [In] in N1, N2, N3.
    repeat split; intros E; rewrite E in *; tauto. }
  destruct D12 as (N12 & N13 & N14 & N23 & N24 & N34).
  cbv zeta.
  pose proof (registerIntegration_returns c1 s) as R1.
  pose proof (registerIntegration_sets_up c1 s l1 L1 A1 B1 C1) as H1.
  pose proof (registerIntegration_keys c1 s) as K1.
  remember (snd (registerIntegration env c1 s)) as s1 eqn:E1. clear E1.
  pose proof (registerIntegration_returns c2 s1) as R2.
  pose proof (registerIntegration_sets_up c2 s1 l2 L2 A2 B2 C2) as H2.
  pose proof (registerIntegration_keys c2 s1) as K2.
  pose proof (SetUp_kept c1 c2 s1 N12) as F12.
  remember (snd (registerIntegration env c2 s1)) as s2 eqn:E2. clear E2.
  pose proof (registerIntegration_returns c3 s2) as R3.
  pose proof (registerIntegration_sets_up c3 s2 l3 L3 A3 B3 C3) as H3.
  pose proof (registerIntegration_keys c3 s2) as K3.
  pose proof (SetUp_kept c1 c3 s2 N13) as F13.
  pose proof (SetUp_kept c2 c3 s2 N23) as F23.
  remember (snd (registerIntegration env c3 s2)) as s3 eqn:E3. clear E3.
  pose proof (registerIntegration_returns c4 s3) as R4.
  pose proof (registerIntegration_sets_up c4 s3 l4 L4 A4 B4 C4) as H4.
  pose proof (registerIntegration_keys c4 s3) as K4.
  pose proof (SetUp_kept c1 c4 s3 N14) as F14.
  pose proof (SetUp_kept c2 c4 s3 N24) as F24.
  pose proof (SetUp_kept c3 c4 s3 N34) as F34.
  remember (snd (registerIntegration env c4 s3)) as s4 eqn:E4. clear E4.
  rewrite (bind_returned _ _ _ _ _ R1), (bind_returned _ _ _ _ _ R2),
    (bind_returned _ _ _ _ _ R3), (bind_returned _ _ _ _ _ R4).
  unfold ret. cbn [fst snd].
  split; [reflexivity|]. split.
  - repeat constructor; auto.
  - intros Hempty. rewrite Hempty in K1. cbn in K1.
    assert (G : forall (st : State) k,
              ~ In k (map fst (integrations (this st))) ->
              JsMap.get k (integrations (this st)) = None)
      by (intros st k; apply SpreadFacts.not_key_get_None).
    rewrite K1 in K2. rewrite G in K2
      by (rewrite K1; simpl; intros [E|[]]; congruence).
    rewrite K2 in K3. rewrite G in K3
      by (rewrite K2; simpl; intros [E|[E|[]]]; congruence).
    rewrite K3 in K4. rewrite G in K4
      by (rewrite K3; simpl; intros [E|[E|[E|[]]]]; congruence).
    exact K4.
Qed.

End Setup.

(** X16. [setupCommonIntegrations] registers SendGrid, Twilio, Google
    Calendar and Amazon S3: from any state and whatever the network
    answers, it returns normally and leaves each of the four set up, that
    is stored under its id with its declared name, category, provider,
    settings and endpoints, with a status that is [active] or [error] (not
    the declared [inactive]), and bound to a limiter with its declared
    limits that has admitted the one request of its connection test; on an
    empty registry the listing order is the order of registration. *)
Theorem setupCommonIntegrations_sets_up (env : Env) (s : State) :
  let run := setupCommonIntegrations env s in
  fst run = Returned tt
  /\ Forall (fun config => SetUp config (this (snd run))) (commonIntegrations)
  /\ (integrations (this s) = [] ->
      map fst (integrations (this (snd run)))
      = ["sendgrid"; "twilio"; "google_calendar"; "aws_s3"]).
Proof.
  cbv zeta. unfold setupCommonIntegrations, commonIntegrations.
  apply (registerIntegration_in_turn env sendgrid twilio google_calendar aws_s3 s).
  1-4: eexists; split; [reflexivity|]; repeat split; cbv; discriminate.
  repeat constructor; simpl; intuition discriminate.
Qed.

(* ================================================================== *)
(** ** Search hash *)
(* ================================================================== *)

Module Int32Facts.

Lemma toInt32_range x : - 2 ^ 31 <= toInt32 x < 2 ^ 31.
Proof.
  unfold toInt32. cbv zeta.
  pose proof (Z.mod_pos_bound x (2 ^ 32) ltac:(lia)).
  destruct (x mod 2 ^ 32 >=? 2 ^ 31) eqn:E; lia.
Qed.

Lemma toInt32_mod x : toInt32 x mod 2 ^ 32 = x mod 2 ^ 32.
Proof.
  unfold toInt32. cbv zeta.
  destruct (x mod 2 ^ 32 >=? 2 ^ 31).
  - replace (x mod 2 ^ 32 - 2 ^ 32) with (x mod 2 ^ 32 + (-1) * 2 ^ 32) by lia.
    rewrite Z.mod_add by lia. apply Z.mod_mod. lia.
  - apply Z.mod_mod. lia.
Qed.

Lemma toInt32_congr x y : x mod 2 ^ 32 = y mod 2 ^ 32 -> toInt32 x = toInt32 y.
Proof. intros H. unfold toInt32. rewrite H. reflexivity. Qed.

Lemma toInt32_idem x : toInt32 (toInt32 x) = toInt32 x.
Proof. apply toInt32_congr, toInt32_mod. Qed.

Lemma toInt32_shift x : exists k, toInt32 x = x + k * 2 ^ 32.
Proof.
  unfold toInt32. cbv zeta.
  pose proof (Z.div_mod x (2 ^ 32) ltac:(lia)) as D.
  destruct (x mod 2 ^ 32 >=? 2 ^ 31).
  - exists (- (x / 2 ^ 32) - 1). lia.
  - exists (- (x / 2 ^ 32)). lia.
Qed.

End Int32Facts.

Lemma bitAnd_diag (x : Z) : bitAnd x x = toInt32 x.
Proof. unfold bitAnd. rewrite Z.land_diag. apply Int32Facts.toInt32_idem. Qed.

Lemma shiftLeft_5 (x : Z) : shiftLeft x 5 = toInt32 (toInt32 x * 32).
Proof. unfold shiftLeft. f_equal. apply (Z.shiftl_mul_pow2 _ 5). lia. Qed.

Lemma hashStep_wrapped (h c : Z) : hashStep (toInt32 h) c = toInt32 (31 * h + c).
Proof.
  unfold hashStep. cbv zeta. rewrite bitAnd_diag, shiftLeft_5, Int32Facts.toInt32_idem.
  apply Int32Facts.toInt32_congr.
  destruct (Int32Facts.toInt32_shift h) as [k2 E2].
  destruct (Int32Facts.toInt32_shift (toInt32 h * 32)) as [k1 E1].
  generalize dependent (toInt32 (toInt32 h * 32)). intros a ->.
  generalize dependent (toInt32 h). intros b ->.
  generalize (2 ^ 32). intros M.
  replace ((h + k2 * M) * 32 + k1 * M - (h + k2 * M) + c)
    with (31 * h + c + (31 * k2 + k1) * M) by ring.
  destruct (Z.eq_dec M 0) as [->|NZ]; [f_equal; ring|].
  apply Z.mod_add. exact NZ.
Qed.

Lemma fold_left_cons {A B : Type} (f : A -> B -> A) (x : B) (l : list B) (a : A) :
  fold_left f (x :: l) a = fold_left f l (f a x).
Proof. reflexivity. Qed.

Lemma hashLoop_wrapped (l : list Z) (h : Z) :
  fold_left hashStep l (toInt32 h) = toInt32 (fold_left (fun h c => 31 * h + c) l h).
Proof.
  revert h. induction l as [|c l IH]; intros h.
  - reflexivity.
  - rewrite !fold_left_cons, hashStep_wrapped. apply IH.
Qed.

Module JsStringFacts.

Lemma chars_ofChars l : JsString.chars (JsString.ofChars l) = l.
Proof. apply list_ascii_of_string_of_list_ascii. Qed.

Lemma ofChars_chars s : JsString.ofChars (JsString.chars s) = s.
Proof. apply string_of_list_ascii_of_string. Qed.

Lemma chars_app a b :
  JsString.chars (a ++ b)%string = JsString.chars a ++ JsString.chars b.
Proof.
  induction a as [|c a IH]; [reflexivity|].
  cbn. unfold JsString.chars in IH. rewrite IH. reflexivity.
Qed.

Lemma concat_repeat_singleton {A : Type} (x : A) (n : nat) :
  concat (List.repeat [x] n) = List.repeat x n.
Proof. induction n as [|n IH]; [reflexivity|]. cbn. rewrite IH. reflexivity. Qed.

Lemma repeat_star (count : Z) :
  0 <= count ->
  JsString.repeat "*" count
  = Returned (JsString.ofChars (List.repeat "*"%char (Z.to_nat count))).
Proof.
  intros H. unfold JsString.repeat.
  destruct (count <? 0) eqn:E; [apply Z.ltb_lt in E; lia|].
  change (JsString.chars "*") with ["*"%char]. rewrite concat_repeat_singleton. reflexivity.
Qed.

Lemma length_nonneg s : 0 <= JsString.length s.
Proof. unfold JsString.length. lia. Qed.

Lemma chars_substring_0 (k : Z) (s : string) :
  0 <= k ->
  JsString.chars (JsString.substring 0 k s) = firstn (Z.to_nat k) (JsString.chars s).
Proof.
  intros H. unfold JsString.substring, JsString.length. cbv zeta.
  rewrite chars_ofChars.
  set (l := JsString.chars s).
  replace (Z.min (Z.max 0 0) (Z.of_nat (length l))) with 0 by lia.
  replace (Z.min 0 (Z.min (Z.max k 0) (Z.of_nat (length l)))) with 0 by lia.
  change (Z.to_nat 0) with 0%nat. cbn [skipn].
  destruct (Z.le_gt_cases k (Z.of_nat (length l))) as [L|G].
  - f_equal. lia.
  - rewrite !firstn_all2 by lia. reflexivity.
Qed.

Lemma chars_slice_last (k : Z) (s : string) :
  0 < k ->
  JsString.chars (JsString.slice (- k) s)
  = skipn (length (JsString.chars s) - Z.to_nat k) (JsString.chars s).
Proof.
  intros H. unfold JsString.slice, JsString.length. cbv zeta.
  rewrite chars_ofChars.
  destruct (- k <? 0) eqn:E; [|apply Z.ltb_ge in E; lia].
  f_equal. lia.
Qed.

Lemma eqb_false_of (a b : string) : a <> b -> (a =? b)%string = false.
Proof. apply String.eqb_neq. Qed.

Lemma splitChars_whole (separator : ascii) (l : list ascii) :
  ~ In separator l -> JsString.splitChars separator l = [l].
Proof.
  induction l as [|c l IH]; intros H; [reflexivity|].
  cbn. destruct (Ascii.eqb_spec c separator) as [->|_].
  - exfalso. apply H. left. reflexivity.
  - rewrite IH by (intros H'; apply H; right; exact H'). reflexivity.
Qed.

Lemma splitChars_app (separator : ascii) (first rest : list ascii) :
  ~ In separator first ->
  JsString.splitChars separator (first ++ separator :: rest)
  = first :: JsString.splitChars separator rest.
Proof.
  induction first as [|c l IH]; intros H.
  - cbn. rewrite Ascii.eqb_refl. reflexivity.
  - cbn. destruct (Ascii.eqb_spec c separator) as [->|_].
    + exfalso. apply H. left. reflexivity.
    + rewrite IH by (intros H'; apply H; right; exact H'). reflexivity.
Qed.

Lemma splitChars_length (separator : ascii) (l : list ascii) :
  length (JsString.splitChars separator l) = S (count_occ ascii_dec l separator).
Proof.
  induction l as [|c l IH]; [reflexivity|].
  cbn [JsString.splitChars count_occ].
  destruct (Ascii.eqb_spec c separator) as [->|N].
  - destruct (ascii_dec separator separator) as [_|N]; [|contradiction].
    cbn [length]. rewrite IH. reflexivity.
  - destruct (ascii_dec c separator) as [E|_]; [contradiction|].
    destruct (JsString.splitChars separator l); cbn [length] in *; [discriminate|exact IH].
Qed.

End JsStringFacts.

(** X17. The hash that [hashForSearch] renders is the base-31 polynomial of
    the code units of [data] followed by those of [salt], wrapped to a
    32-bit two's complement integer: each round of shift, subtract, add and
    mask multiplies by 31 and adds the code unit, modulo 2^32. *)
Theorem hashForSearch_polynomial (data salt : string) :
  hashForSearch data salt
  = toString16
      (toInt32
         (fold_left (fun h c => 31 * h + c)
            (map JsString.charCode (JsString.chars data ++ JsString.chars salt)) 0)).
Proof.
  unfold hashForSearch. cbv zeta. f_equal.
  rewrite JsStringFacts.chars_app.
  change 0 with (toInt32 0) at 1. apply hashLoop_wrapped.
Qed.

(** X18. [hashForSearch] does not separate the salt from the data: moving
    a suffix of the data to the front of the salt leaves the hash as it
    is. *)
Theorem hashForSearch_salt_boundary (data suffix salt : string) :
  hashForSearch (data ++ suffix)%string salt = hashForSearch data (suffix ++ salt)%string.
Proof.
  unfold hashForSearch. cbv zeta. do 3 f_equal.
  rewrite !JsStringFacts.chars_app. symmetry. apply app_assoc.
Qed.

(* ================================================================== *)
(** ** Anonymization *)
(* ================================================================== *)

(** X19. On a field type that is none of [email], [phone], [address],
    [ssn] and [dob] (in any case of letters), [anonymizeField] returns a
    mask as long as the value: every character but the first two and the
    last two is a star, and a value of at most four characters is masked
    entirely, while a longer one keeps its first two and last two
    characters. *)
Theorem anonymizeField_generic (fullYear : string -> option Z) (value fieldType : string) :
  ~ In (JsString.toLowerCase fieldType) ["email"; "phone"; "address"; "ssn"; "dob"] ->
  let v := JsString.chars value in
  let n := length v in
  exists masked,
    anonymizeField fullYear value fieldType = Returned masked
    /\ length (JsString.chars masked) = n
    /\ (forall i, (2 <= i < n - 2)%nat -> nth_error (JsString.chars masked) i = Some "*"%char)
    /\ ((n <= 4)%nat -> JsString.chars masked = List.repeat "*"%char n)
    /\ ((4 < n)%nat ->
        firstn 2 (JsString.chars masked) = firstn 2 v
        /\ skipn (n - 2) (JsString.chars masked) = skipn (n - 2) v).
Proof.
  intros Hty v n. unfold anonymizeField. cbv zeta.
  cbn [In] in Hty.
  rewrite !JsStringFacts.eqb_false_of by (intros E'; apply Hty; rewrite E'; auto 10).
  unfold JsString.length at 1. fold v. fold n.
  destruct (Z.of_nat n <=? 4) eqn:E.
  - apply Z.leb_le in E.
    rewrite JsStringFacts.repeat_star by apply JsStringFacts.length_nonneg.
    eexists. split; [reflexivity|]. rewrite JsStringFacts.chars_ofChars.
    unfold JsString.length. fold v. fold n. rewrite Nat2Z.id.
    split; [apply repeat_length|]. split; [intros i Hi; lia|].
    split; [reflexivity|]. intros Hn. lia.
  - apply Z.leb_gt in E.
    rewrite JsStringFacts.repeat_star by (unfold JsString.length; fold v; fold n; lia).
    cbn [andThen]. eexists. split; [reflexivity|].
    rewrite !JsStringFacts.chars_app, JsStringFacts.chars_ofChars.
    rewrite JsStringFacts.chars_substring_0 by lia.
    rewrite (JsStringFacts.chars_slice_last 2) by lia.
    unfold JsString.length. fold v. fold n.
    change (Z.to_nat 2) with 2%nat.
    replace (Z.to_nat (Z.of_nat n - 4)) with (n - 4)%nat by lia.
    assert (L1 : length (firstn 2 v) = 2%nat) by (rewrite length_firstn; fold n; lia).
    assert (L2 : length (skipn (n - 2) v) = 2%nat) by (rewrite length_skipn; fold n; lia).
    split; [rewrite !length_app, repeat_length, L1, L2; lia|].
    split.
    { intros i Hi. rewrite nth_error_app2 by lia. rewrite L1.
      rewrite nth_error_app1 by (rewrite repeat_length; lia).
      apply nth_error_repeat. lia. }
    split; [intros Hn; lia|]. intros _. split.
    + rewrite firstn_app, L1. change (2 - 2)%nat with 0%nat. rewrite firstn_O.
      rewrite app_nil_r, firstn_firstn. reflexivity.
    + rewrite app_assoc, skipn_app.
      rewrite skipn_all2 by (rewrite length_app, repeat_length, L1; lia).
      rewrite length_app, repeat_length, L1.
      replace (n - 2 - (2 + (n - 4)))%nat with 0%nat by lia. reflexivity.
Qed.

Lemma anonymizeField_generic_witness :
  exists masked,
    anonymizeField (fun _ => None) "secretvalue" "Name" = Returned masked
    /\ length (JsString.chars masked) = 11%nat.
Proof.
  destruct (anonymizeField_generic (fun _ => None) "secretvalue" "Name")
    as (masked & H1 & H2 & _).
  - vm_compute. intuition discriminate.
  - exists masked. split; [exact H1|exact H2].
Defined.

(** X20. On the field type [email] (in any case of letters), a value with
    one [@] keeps its domain, and its user name is masked to the same
    length: all of it if it has at most two characters, all but the first
    two otherwise. A value with no [@] or with several becomes the fixed
    mask. *)
Theorem anonymizeField_email (fullYear : string -> option Z) (value fieldType : string) :
  JsString.toLowerCase fieldType = "email" ->
  (count_occ ascii_dec (JsString.chars value) "@"%char <> 1%nat ->
   anonymizeField fullYear value fieldType = Returned "***@***.***")
  /\ (forall username domain,
        value = (username ++ "@" ++ domain)%string ->
        ~ In "@"%char (JsString.chars username) ->
        ~ In "@"%char (JsString.chars domain) ->
        let u := JsString.chars username in
        exists masked,
          anonymizeField fullYear value fieldType
          = Returned (masked ++ "@" ++ domain)%string
          /\ length (JsString.chars masked) = length u
          /\ ((length u <= 2)%nat -> JsString.chars masked = List.repeat "*"%char (length u))
          /\ ((2 < length u)%nat ->
              JsString.chars masked = firstn 2 u ++ List.repeat "*"%char (length u - 2))).
Proof.
  intros Hty. unfold anonymizeField. cbv zeta. rewrite Hty.
  change ("email" =? "email")%string with true. cbv iota.
  unfold JsString.split. split.
  - intros Hc.
    pose proof (JsStringFacts.splitChars_length "@" (JsString.chars value)) as L.
    destruct (JsString.splitChars "@" (JsString.chars value)) as [|p1 [|p2 [|p3 ps]]];
      cbn [map]; try reflexivity.
    cbn [length] in L. congruence.
  - intros username domain -> Hu Hd. set (u := JsString.chars username).
    rewrite !JsStringFacts.chars_app. change (JsString.chars "@") with ["@"%char].
    cbn [app]. rewrite JsStringFacts.splitChars_app by exact Hu.
    rewrite JsStringFacts.splitChars_whole by exact Hd.
    cbn [map]. rewrite !JsStringFacts.ofChars_chars.
    unfold JsString.length. fold u.
    destruct (Z.of_nat (length u) >? 2) eqn:E.
    + assert (2 < length u)%nat by lia.
      rewrite JsStringFacts.repeat_star by lia. cbn [andThen].
      eexists. split; [reflexivity|].
      rewrite JsStringFacts.chars_app, JsStringFacts.chars_ofChars.
      rewrite JsStringFacts.chars_substring_0 by lia. fold u.
      change (Z.to_nat 2) with 2%nat.
      replace (Z.to_nat (Z.of_nat (length u) - 2)) with (length u - 2)%nat by lia.
      split; [rewrite length_app, length_firstn, repeat_length; lia|].
      split; [lia|]. reflexivity.
    + assert (length u <= 2)%nat by lia.
      rewrite JsStringFacts.repeat_star by lia. cbn [andThen].
      eexists. split; [reflexivity|].
      rewrite JsStringFacts.chars_ofChars, Nat2Z.id.
      split; [apply repeat_length|]. split; [reflexivity|lia].
Qed.

Lemma anonymizeField_email_witness :
  exists masked,
    anonymizeField (fun _ => None) "john.doe@example.com" "Email"
    = Returned (masked ++ "@example.com")%string
    /\ JsString.chars masked = JsString.chars "jo******".
Proof.
  destruct (anonymizeField_email (fun _ => None) "john.doe@example.com" "Email" eq_refl)
    as [_ H].
  destruct (H "john.doe" "example.com" eq_refl) as (masked & H1 & _ & _ & H2).
  - vm_compute. intuition discriminate.
  - vm_compute. intuition discriminate.
  - exists masked. split; [exact H1|]. apply H2. vm_compute. lia.
Defined.

Lemma filter_all {A : Type} (f : A -> bool) (l : list A) :
  Forall (fun x => f x = true) l -> filter f l = l.
Proof.
  induction 1 as [|x l Hx _ IH]; [reflexivity|]. cbn. rewrite Hx, IH. reflexivity.
Qed.

Lemma filter_none_repeat {A : Type} (f : A -> bool) (x : A) (n : nat) :
  f x = false -> filter f (List.repeat x n) = [].
Proof. intros H. induction n as [|n IH]; [reflexivity|]. cbn. rewrite H. exact IH. Qed.

Lemma Forall_firstn_skipn {A : Type} (P : A -> Prop) (k : nat) (l : list A) :
  Forall P l -> Forall P (firstn k l) /\ Forall P (skipn k l).
Proof. intros H. rewrite <- (firstn_skipn k l) in H. apply Forall_app in H. exact H. Qed.

(** X21. On the field type [phone] (in any case of letters), a value with
    at least seven digits becomes its digits alone, the first three and
    the last three as they are and a star for each digit between, so that
    six digits are left to read; a value with fewer digits becomes a star
    for each of its characters. *)
Theorem anonymizeField_phone (fullYear : string -> option Z) (value fieldType : string) :
  JsString.toLowerCase fieldType = "phone" ->
  let digits := filter JsString.isDigit (JsString.chars value) in
  let n := length digits in
  exists masked,
    anonymizeField fullYear value fieldType = Returned masked
    /\ ((7 <= n)%nat ->
        JsString.chars masked
        = firstn 3 digits ++ List.repeat "*"%char (n - 6) ++ skipn (n - 3) digits
        /\ length (JsString.chars masked) = n
        /\ length (filter JsString.isDigit (JsString.chars masked)) = 6%nat)
    /\ ((n < 7)%nat ->
        JsString.chars masked = List.repeat "*"%char (length (JsString.chars value))).
Proof.
  intros Hty digits n. unfold anonymizeField. cbv zeta. rewrite Hty.
  change ("phone" =? "email")%string with false.
  change ("phone" =? "phone")%string with true. cbv iota.
  unfold JsString.removeNonDigits, JsString.length.
  rewrite JsStringFacts.chars_ofChars. fold digits. fold n.
  destruct (Z.of_nat n >=? 7) eqn:E.
  - assert (Hn : (7 <= n)%nat) by lia.
    rewrite JsStringFacts.repeat_star by lia. cbn [andThen].
    eexists. split; [reflexivity|]. split; [|lia]. intros _.
    rewrite !JsStringFacts.chars_app, JsStringFacts.chars_ofChars.
    rewrite JsStringFacts.chars_substring_0 by lia.
    rewrite (JsStringFacts.chars_slice_last 3) by lia.
    rewrite !JsStringFacts.chars_ofChars. fold digits. fold n.
    change (Z.to_nat 3) with 3%nat.
    replace (Z.to_nat (Z.of_nat n - 6)) with (n - 6)%nat by lia.
    assert (D : Forall (fun c => JsString.isDigit c = true) digits).
    { apply Forall_forall. intros c Hc. apply filter_In in Hc. apply Hc. }
    assert (L1 : length (firstn 3 digits) = 3%nat) by (rewrite length_firstn; fold n; lia).
    assert (L2 : length (skipn (n - 3) digits) = 3%nat) by (rewrite length_skipn; fold n; lia).
    split; [reflexivity|]. split.
    + rewrite !length_app, repeat_length, L1, L2. lia.
    + rewrite !filter_app, filter_none_repeat by reflexivity.
      rewrite !filter_all by (apply Forall_firstn_skipn; exact D).
      rewrite !length_app, L1, L2. reflexivity.
  - assert (Hn : (n < 7)%nat) by lia.
    rewrite JsStringFacts.repeat_star by lia.
    eexists. split; [reflexivity|]. split; [lia|]. intros _.
    rewrite JsStringFacts.chars_ofChars, Nat2Z.id. reflexivity.
Qed.

Lemma anonymizeField_phone_witness :
  exists masked,
    anonymizeField (fun _ => None) "(555) 123-4567" "PHONE" = Returned masked
    /\ JsString.chars masked = JsString.chars "555****567".
Proof.
  destruct (anonymizeField_phone (fun _ => None) "(555) 123-4567" "PHONE" eq_refl)
    as (masked & H1 & H2 & _).
  exists masked. split; [exact H1|]. apply H2. vm_compute. lia.
Defined.

Lemma splitChars_parts (separator : ascii) (l : list ascii) :
  exists part parts,
    JsString.splitChars separator l = part :: parts
    /\ l = part ++ concat (map (cons separator) parts)
    /\ Forall (fun q => ~ In separator q) (part :: parts).
Proof.
  induction l as [|c l (part & parts & E & -> & F)].
  - exists [], []. cbn. repeat split. constructor; [tauto|constructor].
  - cbn [JsString.splitChars]. rewrite E.
    destruct (Ascii.eqb_spec c separator) as [->|N].
    + exists [], (part :: parts). repeat split. constructor; [cbn; tauto|exact F].
    + exists (c :: part), parts. repeat split.
      inversion F as [|? ? F1 F2]; subst. constructor; [|exact F2].
      cbn [In]. intros [H|H]; [congruence|contradiction].
Qed.

Lemma mapIndexed_later {A B : Type} (f : A -> nat -> Completion B) (g : A -> B)
  (l : list A) (index : nat) :
  (forall x k, f x (S k) = Returned (g x)) ->
  mapIndexed f (S index) l = Returned (map g l).
Proof.
  intros H. revert index. induction l as [|x l IH]; intros index; [reflexivity|].
  cbn [mapIndexed map]. rewrite H. cbn [andThen]. rewrite IH. reflexivity.
Qed.

Lemma chars_join (separator first : string) (parts : list string) :
  JsString.chars (JsString.join separator (first :: parts))
  = JsString.chars first
    ++ concat (map (fun s => JsString.chars separator ++ JsString.chars s) parts).
Proof.
  unfold JsString.join. revert first. induction parts as [|x xs IH]; intros first.
  - cbn. rewrite app_nil_r. reflexivity.
  - change (String.concat separator (first :: x :: xs))
      with (first ++ separator ++ String.concat separator (x :: xs))%string.
    cbn [map concat].
    rewrite !JsStringFacts.chars_app, IH, <- !app_assoc. reflexivity.
Qed.

(** X22. On the field type [address] (in any case of letters),
    [anonymizeField] keeps the value up to its first space, and replaces
    every later character other than a space by a star: the mask is as
    long as the value and has its spaces where the value has them. *)
Theorem anonymizeField_address (fullYear : string -> option Z) (value fieldType : string) :
  JsString.toLowerCase fieldType = "address" ->
  exists masked first rest,
    anonymizeField fullYear value fieldType = Returned masked
    /\ JsString.chars value = first ++ rest
    /\ ~ In " "%char first
    /\ (rest = [] \/ exists rest', rest = " "%char :: rest')
    /\ JsString.chars masked
       = first ++ map (fun c => if Ascii.eqb c " " then " "%char else "*"%char) rest.
Proof.
  intros Hty. unfold anonymizeField. cbv zeta. rewrite Hty.
  change ("address" =? "email")%string with false.
  change ("address" =? "phone")%string with false.
  change ("address" =? "address")%string with true. cbv iota.
  unfold JsString.split.
  destruct (splitChars_parts " " (JsString.chars value)) as (part & parts & E & V & F).
  rewrite E. cbn [map mapIndexed Nat.eqb andThen].
  rewrite (mapIndexed_later _
             (fun part => JsString.ofChars
                            (List.repeat "*"%char (Z.to_nat (JsString.length part)))))
    by (intros x k; apply JsStringFacts.repeat_star, JsStringFacts.length_nonneg).
  cbn [andThen].
  exists (JsString.join " "
            (JsString.ofChars part
             :: map (fun part => JsString.ofChars
                                   (List.repeat "*"%char (Z.to_nat (JsString.length part))))
                  (map JsString.ofChars parts))),
    part, (concat (map (cons " "%char) parts)).
  inversion F as [|? ? F1 F2]; subst.
  split; [reflexivity|]. split; [exact V|]. split; [exact F1|]. split.
  - destruct parts as [|q qs]; [left; reflexivity|right]. cbn. eauto.
  - rewrite chars_join, JsStringFacts.chars_ofChars. f_equal.
    clear E V F F1. induction parts as [|q qs IH]; [reflexivity|].
    inversion F2 as [|? ? Q1 Q2]; subst.
    cbn [map concat]. rewrite map_app, <- (IH Q2). f_equal.
    rewrite JsStringFacts.chars_ofChars.
    unfold JsString.length. rewrite JsStringFacts.chars_ofChars, Nat2Z.id.
    change (JsString.chars " ") with [" "%char]. cbn [app map Ascii.eqb Bool.eqb].
    f_equal. clear IH Q2 F2. induction q as [|c q IHq]; [reflexivity|].
    cbn [length List.repeat map].
    destruct (Ascii.eqb_spec c " ") as [->|_]; [exfalso; apply Q1; left; reflexivity|].
    f_equal. apply IHq. intros H. apply Q1. right. exact H.
Qed.

Lemma anonymizeField_address_witness :
  exists masked first rest,
    anonymizeField (fun _ => None) "12 Main St" "Address" = Returned masked
    /\ JsString.chars "12 Main St" = first ++ rest
    /\ ~ In " "%char first
    /\ JsString.chars masked
       = first ++ map (fun c => if Ascii.eqb c " " then " "%char else "*"%char) rest.
Proof.
  destruct (anonymizeField_address (fun _ => None) "12 Main St" "Address" eq_refl)
    as (masked & first & rest & H1 & H2 & H3 & _ & H5).
  exists masked, first, rest.
  split; [exact H1|]. split; [exact H2|]. split; [exact H3|exact H5].
Defined.
